(** * Context-aware retrieval core of the form generator

    A shallow embedding of [backend/src/services/embedding.ts]: the hash
    vectorizer ([simpleHashEmbedding]), the similarity scorer
    ([cosineSimilarity]) and the retriever ([retrieveRelevantForms]),
    together with the part of the [Form] model and of the MongoDB query
    interface the retriever relies on.

    JavaScript numbers are IEEE-754 binary64 values; they are modelled by
    Rocq's primitive floats.  The numeric code is written once over a small
    interface of arithmetic operations and read twice: at [float], which is
    what the program computes, and at [R], the exact arithmetic the
    cosine formula is stated in. *)

From Stdlib Require Import ZArith List Bool String Ascii Lia.
From Stdlib Require Import Floats Reals Lra Psatz.
From Stdlib Require Import Permutation Sorted Zpower.
Import ListNotations.

(** ** JavaScript strings

    Texts are modelled by strings of 8-bit characters, read as the UTF-16 code
    units 0..255 (Basic Latin and Latin-1 Supplement).  On that range
    [toLowerCase], the white space class [\s] and [charCodeAt] are as in
    ECMAScript. *)
Module JS.

Definition charCodeAt (c : ascii) : Z := Z.of_N (N_of_ascii c).

(** [\s] below U+0100: TAB, LF, VT, FF, CR, SPACE and NO-BREAK SPACE. *)
Definition isWhiteSpace (c : ascii) : bool :=
  let n := N_of_ascii c in
  ((9 <=? n) && (n <=? 13) || (n =? 32) || (n =? 160))%N.

(** Upper-case letters below U+0100: A..Z and U+00C0..U+00DE except the
    multiplication sign U+00D7; each has its lower-case partner 32 above. *)
Definition isUpper (c : ascii) : bool :=
  let n := N_of_ascii c in
  ((65 <=? n) && (n <=? 90) || (192 <=? n) && (n <=? 222) && negb (n =? 215))%N.

Definition lowerChar (c : ascii) : ascii :=
  if isUpper c then ascii_of_N (N_of_ascii c + 32) else c.

Fixpoint toLowerCase (s : string) : string :=
  match s with
  | EmptyString => EmptyString
  | String c rest => String (lowerChar c) (toLowerCase rest)
  end.

(** [text.split(/\s+/)]: [cur] is the token being read, [prev_ws] tells that
    the previous character belonged to a separator.  A separator at either end
    of the text leaves an empty token there, and the empty text splits into
    one empty token. *)
Fixpoint splitFrom (cur : string) (prev_ws : bool) (s : string) : list string :=
  match s with
  | EmptyString => [cur]
  | String c rest =>
      if isWhiteSpace c then
        if prev_ws then splitFrom cur true rest
        else cur :: splitFrom EmptyString true rest
      else splitFrom (cur ++ String c EmptyString) false rest
  end.

Definition splitWhitespace (s : string) : list string :=
  splitFrom EmptyString false s.

(** [ToInt32]: the value modulo 2^32, read as a signed 32-bit integer. *)
Definition toInt32 (z : Z) : Z := ((z + 2 ^ 31) mod 2 ^ 32 - 2 ^ 31)%Z.

(** [Array.prototype.slice(0, k)] for an integral [k]: a negative [k] counts
    from the end of the array. *)
Definition slice0 {A} (l : list A) (k : Z) : list A :=
  if (k <? 0)%Z then firstn (Z.to_nat (Z.max (Z.of_nat (List.length l) + k) 0)) l
  else firstn (Z.to_nat k) l.

End JS.

(** ** Numbers *)

(** The operations the numeric code uses on JavaScript numbers. *)
Class Number (T : Type) : Type := {
  zero : T;
  add : T -> T -> T;
  mul : T -> T -> T;
  div : T -> T -> T;
  sqrt : T -> T;
  ltb : T -> T -> bool;          (* [x < y] *)
  eqb : T -> T -> bool;          (* [x === y] *)
  ofZ : Z -> T                   (* an integer as a number *)
}.

Declare Scope num_scope.
Delimit Scope num_scope with num.
Infix "+" := add : num_scope.
Infix "*" := mul : num_scope.
Infix "/" := div : num_scope.
Infix "<?" := ltb : num_scope.
Infix "=?" := eqb : num_scope.

(** IEEE-754 binary64, the numbers of the program. *)
#[export] Instance float_Number : Number float := {|
  zero := 0%float;
  add := PrimFloat.add;
  mul := PrimFloat.mul;
  div := PrimFloat.div;
  sqrt := PrimFloat.sqrt;
  ltb := PrimFloat.ltb;
  eqb := PrimFloat.eqb;
  ofZ := fun z => PrimFloat.of_uint63 (Uint63.of_Z z)
|}.

Definition Rltb (x y : R) : bool := if Rlt_dec x y then true else false.
Definition Reqb (x y : R) : bool := if Req_dec_T x y then true else false.

(** Exact real arithmetic: the formulas of the code without rounding,
    overflow or underflow.  The program computes with [float_Number]; a
    statement at [R] says what the formula denotes, not what a call returns. *)
#[export] Instance R_Number : Number R := {|
  zero := 0%R;
  add := Rplus;
  mul := Rmult;
  div := Rdiv;
  sqrt := R_sqrt.sqrt;
  ltb := Rltb;
  eqb := Reqb;
  ofZ := IZR
|}.

(** ** Text vectorizer *)

Section Vectorizer.
Context {T : Type} `{Number T}.
Local Open Scope num_scope.

(** The dimension of an embedding: [new Array(128)]. *)
Definition DIM : nat := 128.

(** One round of the inner loop:
    [hash = ((hash << 5) - hash) + word.charCodeAt(i); hash = hash & hash]. *)
Definition hashStep (hash : Z) (c : ascii) : Z :=
  JS.toInt32 (JS.toInt32 (hash * 32) - hash + JS.charCodeAt c)%Z.

Fixpoint hashFrom (hash : Z) (word : string) : Z :=
  match word with
  | EmptyString => hash
  | String c rest => hashFrom (hashStep hash c) rest
  end.

Definition hashCode (word : string) : Z := hashFrom 0 word.

(** [Math.abs(hash) % embedding.length] *)
Definition bucket (word : string) : nat :=
  Z.to_nat (Z.abs (hashCode word) mod Z.of_nat DIM).

(** [embedding[idx] += w] *)
Fixpoint addAt (idx : nat) (w : T) (embedding : list T) : list T :=
  match embedding, idx with
  | [], _ => []
  | x :: rest, O => (x + w) :: rest
  | x :: rest, S i => x :: addAt i w rest
  end.

(** [words.forEach((word, index) => ...)], from position [index] on. *)
Fixpoint accumulate (words : list string) (index : Z) (embedding : list T)
  : list T :=
  match words with
  | [] => embedding
  | word :: rest =>
      accumulate rest (index + 1)%Z
        (addAt (bucket word) (ofZ 1 / ofZ (index + 1)) embedding)
  end.

(** [embedding.reduce((sum, val) => sum + val * val, 0)] *)
Definition sumSquares (v : list T) : T :=
  fold_left (fun sum val => sum + val * val) v zero.

Definition simpleHashEmbedding (text : string) : list T :=
  let words := JS.splitWhitespace (JS.toLowerCase text) in
  let embedding := accumulate words 0 (repeat zero DIM) in
  let magnitude := sqrt (sumSquares embedding) in
  if zero <? magnitude then map (fun val => val / magnitude) embedding
  else embedding.

Definition generateEmbedding (text : string) : list T :=
  simpleHashEmbedding text.

(** ** Similarity scorer *)

(** The loop of [cosineSimilarity], with its three accumulators. *)
Fixpoint cosineLoop (a b : list T) (dotProduct normA normB : T) : T * T * T :=
  match a, b with
  | x :: a', y :: b' =>
      cosineLoop a' b' (dotProduct + x * y) (normA + x * x) (normB + y * y)
  | _, _ => (dotProduct, normA, normB)
  end.

Definition cosineSimilarity (a b : list T) : T :=
  if negb (List.length a =? List.length b)%nat then zero
  else
    let '(dotProduct, normA, normB) := cosineLoop a b zero zero zero in
    if (normA =? zero) || (normB =? zero) then zero
    else dotProduct / (sqrt normA * sqrt normB).

End Vectorizer.

(** ** The Form model

    [IForm] of [backend/src/models/Form.ts], with the fields the retriever and
    its callers read.  [userId] is the owner; [embedding], [summary] and
    [purpose] are optional; [createdAt] is a date in milliseconds. *)
Record IForm : Type := {
  userId : string;
  title : string;
  shareableId : string;
  embedding : option (list float);
  summary : option string;
  purpose : option string;
  createdAt : Z
}.

(** ** The record store

    The MongoDB collection behind the [Form] model is a list of documents in
    the order in which an unsorted cursor returns them.  A query either
    resolves or rejects; [faults] tells, for the queries still to come, which
    of them reject ([true]), and a query without an entry resolves.
    [console] collects the lines written by [console.error], and [scored]
    counts the calls of [cosineSimilarity] made so far. *)
Inductive outcome (A : Type) : Type :=
  | Resolved (value : A)
  | Rejected (reason : string).
Arguments Resolved {A} value.
Arguments Rejected {A} reason.

Record World : Type := {
  collection : list IForm;
  faults : list bool;
  console : list string;
  scored : nat
}.

Module Mongo.

(** [{ userId, embedding: { $exists: true, $ne: null } }] *)
Definition hasEmbedding (form : IForm) : bool :=
  match embedding form with Some _ => true | None => false end.

Definition ownedBy (owner : string) (form : IForm) : bool :=
  String.eqb (userId form) owner.

Definition find (filter_ : IForm -> bool) (docs : list IForm) : list IForm :=
  filter filter_ docs.

(** [.sort({ createdAt: -1 })]: the documents by descending [createdAt];
    documents of the same date keep their order. *)
Fixpoint insertByDate (x : IForm) (l : list IForm) : list IForm :=
  match l with
  | [] => [x]
  | y :: rest =>
      if (createdAt x <? createdAt y)%Z then y :: insertByDate x rest
      else x :: y :: rest
  end.

Definition sortCreatedAtDesc (docs : list IForm) : list IForm :=
  fold_right insertByDate [] docs.

(** [.limit(n)]: the first [n] documents; as MongoDB documents it, a limit of
    0 is no limit and a negative limit counts as its absolute value. *)
Definition limit (n : Z) (docs : list IForm) : list IForm :=
  if (n =? 0)%Z then docs else firstn (Z.abs_nat n) docs.

(** Running a query: the next entry of [faults] decides whether it rejects. *)
Definition exec (query : list IForm -> list IForm) (w : World)
  : outcome (list IForm) * World :=
  match faults w with
  | [] => (Resolved (query (collection w)), w)
  | fault :: later =>
      let w' := {| collection := collection w; faults := later;
                   console := console w; scored := scored w |} in
      if fault then (Rejected "MongoNetworkError", w')
      else (Resolved (query (collection w)), w')
  end.

End Mongo.

(** [console.error(line, error)] *)
Definition consoleError (line : string) (w : World) : World :=
  {| collection := collection w; faults := faults w;
     console := console w ++ [line]; scored := scored w |}.

(** [n] more calls of [cosineSimilarity]. *)
Definition tick (n : nat) (w : World) : World :=
  {| collection := collection w; faults := faults w;
     console := console w; scored := scored w + n |}.

(** ** [Array.prototype.sort]

    The sort is stable, and a comparator result that is not greater than zero
    (a NaN counts as +0) leaves two elements in their order: [x] moves behind
    [y] exactly when [comparefn x y > 0].

    ECMAScript fixes the sorted array only for a consistent comparator.  The
    comparator of the retriever is one exactly when no score is NaN
    ([scoresAreNumbers] below): then the stable descending order is unique and
    [arraySort] returns it.  With a NaN among the scores the order is left to
    the implementation and an engine may return another one than this
    insertion; every statement below that depends on the order of the sorted
    array assumes [scoresAreNumbers]. *)
Section ArraySort.
Context {A : Type} (comparefn : A -> A -> float).

Fixpoint insertSorted (x : A) (l : list A) : list A :=
  match l with
  | [] => [x]
  | y :: rest =>
      if (0 <? comparefn x y)%float then y :: insertSorted x rest
      else x :: y :: rest
  end.

Definition arraySort (l : list A) : list A := fold_right insertSorted [] l.

End ArraySort.

(** ** Relevance retriever *)

(** The literal [0.1]: the binary64 value nearest to one tenth. *)
Definition THRESHOLD : float := 0x1.999999999999ap-4%float.

(** The cap on the candidates of one call: [.limit(1000)]. *)
Definition CANDIDATE_LIMIT : Z := 1000.

(** [{ form, similarity }] *)
Record Scored : Type := { form : IForm; similarity : float }.

(** [forms.map(form => ({ form, similarity: form.embedding ?
    cosineSimilarity(promptEmbedding, form.embedding) : 0 }))] *)
Definition scoreForm (promptEmbedding : list float) (f : IForm) : Scored :=
  {| form := f;
     similarity := match embedding f with
                   | Some e => cosineSimilarity promptEmbedding e
                   | None => 0%float
                   end |}.

(** [(a, b) => b.similarity - a.similarity] *)
Definition bySimilarity (a b : Scored) : float :=
  (similarity b - similarity a)%float.

(** The ranking of the fetched candidates: score, sort, slice, filter, map. *)
Definition rank (promptEmbedding : list float) (forms : list IForm) (topK : Z)
  : list IForm :=
  let formsWithSimilarity := map (scoreForm promptEmbedding) forms in
  let sorted := arraySort bySimilarity formsWithSimilarity in
  map form
    (filter (fun item => (THRESHOLD <? similarity item)%float)
       (JS.slice0 sorted topK)).

Definition ERROR_LINE : string := "Error retrieving relevant forms:".

Definition retrieveRelevantForms (owner prompt : string) (topK : Z) (w : World)
  : outcome (list IForm) * World :=
  let promptEmbedding := generateEmbedding prompt in
  match Mongo.exec
          (fun docs =>
             Mongo.limit CANDIDATE_LIMIT
               (Mongo.find (fun f => Mongo.ownedBy owner f && Mongo.hasEmbedding f)
                  docs)) w with
  | (Resolved forms, w1) =>
      if (List.length forms =? 0)%nat then (Resolved [], w1)
      else
        (Resolved (rank promptEmbedding forms topK),
         tick (List.length (filter Mongo.hasEmbedding forms)) w1)
  | (Rejected _, w1) =>
      let w2 := consoleError ERROR_LINE w1 in
      Mongo.exec
        (fun docs =>
           Mongo.limit topK
             (Mongo.sortCreatedAtDesc (Mongo.find (Mongo.ownedBy owner) docs)))
        w2
  end.

(** The observable mark of the fallback path: the error line on the console. *)
Definition fallbackFlag (before after : World) : bool :=
  negb (List.length (console after) =? List.length (console before))%nat.

(** ** Notions the properties are stated with *)

(** [x] is a number: [x === x], which fails for NaN only. *)
Definition isNumber (x : float) : Prop := (x =? x)%float = true.

(** Scored items whose scores are numbers, and their descending order. *)
Definition numbered (l : list Scored) : Prop :=
  Forall (fun x => isNumber (similarity x)) l.

Definition descending (a b : Scored) : Prop :=
  (similarity b <=? similarity a)%float = true.

(** The similarity of a record to the query vector, as the retriever scores
    it. *)
Definition score (promptEmbedding : list float) (f : IForm) : float :=
  similarity (scoreForm promptEmbedding f).

(** The scores of the given records are numbers: none is NaN. *)
Definition scoresAreNumbers (promptEmbedding : list float) (forms : list IForm)
  : Prop :=
  Forall (fun f => isNumber (score promptEmbedding f)) forms.

(** [item.similarity > 0.1] *)
Definition relevant (promptEmbedding : list float) (f : IForm) : bool :=
  (THRESHOLD <? score promptEmbedding f)%float.

(** The candidates of a call: what the first query returns when it resolves. *)
Definition candidates (owner : string) (w : World) : list IForm :=
  Mongo.limit CANDIDATE_LIMIT
    (Mongo.find (fun f => Mongo.ownedBy owner f && Mongo.hasEmbedding f)
       (collection w)).

(** The candidates in ranked order. *)
Definition ranked (promptEmbedding : list float) (forms : list IForm)
  : list IForm :=
  map form (arraySort bySimilarity (map (scoreForm promptEmbedding) forms)).

(** A text of white space only (the empty text included). *)
Fixpoint allWhiteSpace (s : string) : bool :=
  match s with
  | EmptyString => true
  | String c rest => JS.isWhiteSpace c && allWhiteSpace rest
  end.

(** The query of the fallback path: the most recent records of the owner. *)
Definition recent (owner : string) (topK : Z) (docs : list IForm) : list IForm :=
  Mongo.limit topK
    (Mongo.sortCreatedAtDesc (Mongo.find (Mongo.ownedBy owner) docs)).

(** The next query of the world resolves. *)
Definition nextResolves (w : World) : bool :=
  match faults w with
  | true :: _ => false
  | _ => true
  end.

(** The world after one query. *)
Definition afterQuery (w : World) : World := snd (Mongo.exec (fun docs => docs) w).

(** By descending similarity to the query vector. *)
Definition bySimilarityDesc (promptEmbedding : list float) (f g : IForm) : Prop :=
  (score promptEmbedding g <=? score promptEmbedding f)%float = true.

(** By descending creation date. *)
Definition byCreatedAtDesc (f g : IForm) : Prop := (createdAt g <= createdAt f)%Z.

(** ** Sums in exact arithmetic

    The sum of the squares and the sum of a vector of reals, and the dot
    product of two of them. *)
Section RealSums.
Local Open Scope R_scope.

Fixpoint Rsumsq (v : list R) : R :=
  match v with
  | [] => 0
  | x :: v' => x * x + Rsumsq v'
  end.

Fixpoint Rdot (a b : list R) : R :=
  match a, b with
  | x :: a', y :: b' => x * y + Rdot a' b'
  | _, _ => 0
  end.

Fixpoint Rsum (v : list R) : R :=
  match v with
  | [] => 0
  | x :: v' => x + Rsum v'
  end.

End RealSums.

(** ** Ranks of binary64 values

    A value other than NaN is ranked by a triple of integers, and the
    comparison of two values is the lexicographic comparison of their
    ranks. *)
Local Open Scope Z_scope.

Definition rank3 (x : spec_float) : Z * Z * Z :=
  match x with
  | S754_nan => (0, 0, 0)
  | S754_zero _ => (0, 0, 0)
  | S754_infinity s => (if s then -2 else 2, 0, 0)
  | S754_finite false m e => (1, e, Zpos m)
  | S754_finite true m e => (-1, - e, - Zpos m)
  end.

Definition lt3 (a b : Z * Z * Z) : Prop :=
  let '(a1, a2, a3) := a in
  let '(b1, b2, b3) := b in
  a1 < b1 \/ (a1 = b1 /\ (a2 < b2 \/ (a2 = b2 /\ a3 < b3))).

Definition compared (c : comparison) (a b : Z * Z * Z) : Prop :=
  match c with
  | Lt => lt3 a b
  | Eq => a = b
  | Gt => lt3 b a
  end.

Definition frank (x : float) : Z * Z * Z := rank3 (Prim2SF x).

(** A value that is neither zero nor NaN, of sign [s]. *)
Definition signed (s : bool) (x : spec_float) : Prop :=
  match x with
  | S754_finite s' _ _ | S754_infinity s' => s' = s
  | _ => False
  end.

Local Close Scope Z_scope.

(** ** Sample data

    Two owners.  The first owns two records made from the same text (so they
    score alike), a survey, an internship form and a record that has no
    embedding; the dates follow the order of creation. *)
Module Sample.
Local Open Scope string_scope.

Definition record (owner name : string) (text : option string) (date : Z)
  : IForm :=
  {| userId := owner; title := name; shareableId := name;
     embedding := option_map generateEmbedding text;
     summary := text; purpose := None; createdAt := date |}.

Definition job := record "u1" "job" (Some "job application resume portfolio") 100.
Definition survey := record "u1" "survey" (Some "customer survey rating feedback") 200.
Definition intern :=
  record "u1" "intern" (Some "internship application with resume upload") 300.
Definition other := record "u2" "other" (Some "job application with resume") 400.
Definition job2 := record "u1" "job2" (Some "job application resume portfolio") 500.
Definition blank := record "u1" "blank" None 600.

Definition docs : list IForm := [job; survey; intern; other; job2; blank].

Definition prompt : string := "job application with resume".

(** The store at rest, and with the next one or two queries failing. *)
Definition world (failing : list bool) : World :=
  {| collection := docs; faults := failing; console := []; scored := 0 |}.

End Sample.

(** ** Further notions: parts of lists, hashes, texts of one token *)

(** [a] is part of [b]: the elements of [a], as often as they occur, are among
    the elements of [b]. *)
Definition partOf {A : Type} (a b : list A) : Prop :=
  exists rest, Permutation (a ++ rest) b.

(** The 31-multiplier polynomial of the code units of a word, in the
    integers. *)
Fixpoint poly31 (h : Z) (word : string) : Z :=
  match word with
  | EmptyString => h
  | String c rest => poly31 (31 * h + JS.charCodeAt c) rest
  end.

(** A text without white space. *)
Fixpoint noWhiteSpace (s : string) : bool :=
  match s with
  | EmptyString => true
  | String c rest => negb (JS.isWhiteSpace c) && noWhiteSpace rest
  end.

(** The unit vector of a bucket. *)
Definition unitVector (i : nat) : list float :=
  map (fun j => if (j =? i)%nat then 1%float else 0%float) (seq 0 DIM).

(** Equality of vectors of binary64 values, bit for bit. *)
Fixpoint sameFloats (a b : list float) : bool :=
  match a, b with
  | [], [] => true
  | x :: a', y :: b' => PrimFloat.Leibniz.eqb x y && sameFloats a' b'
  | _, _ => false
  end.

(** The vector of a text whose only token falls into bucket [i]. *)
Definition oneTokenVector (i : nat) : list float :=
  let embedding := addAt i (ofZ 1 / ofZ 1)%num (repeat zero DIM) in
  let magnitude := sqrt (sumSquares embedding) in
  if (zero <? magnitude)%num then map (fun val => (val / magnitude)%num) embedding
  else embedding.

(** ** Form fields, summaries and purposes *)

(** [IFormField] of [backend/src/models/Form.ts], without [validation] and
    [defaultValue], which the functions below do not read. *)
Module Field.
Record t : Type := {
  id : string;
  type : string;
  label : string;
  name : string;
  placeholder : option string;
  required : option bool;
  options : option (list string)
}.
End Field.

(** What [extractFormSummary] reads of a form: the route calls it with
    [{ title, description, schema }]. *)
Module Draft.
Record t : Type := {
  title : string;
  description : option string;
  schema : list Field.t
}.
End Draft.

Section FormText.
Local Open Scope string_scope.

(** [String.prototype.includes] *)
Fixpoint includes (text search : string) : bool :=
  String.prefix search text ||
  match text with
  | EmptyString => false
  | String _ rest => includes rest search
  end.

(** [Array.prototype.join] *)
Fixpoint join (separator : string) (items : list string) : string :=
  match items with
  | [] => EmptyString
  | [item] => item
  | item :: rest => (item ++ separator ++ join separator rest)%string
  end.

(** [a || b] on strings: the empty string is falsy. *)
Definition orElse (a b : string) : string :=
  if String.eqb a "" then b else a.

Definition extractFormSummary (form : Draft.t) : string :=
  let fieldTypes := join ", " (map Field.type (Draft.schema form)) in
  let fieldNames :=
    join ", " (map (fun f => orElse (Field.label f) (Field.name f)) (Draft.schema form)) in
  orElse (Draft.title form) "Form" ++ ": " ++
  match Draft.description form with Some d => d | None => "" end ++
  " Fields: " ++ fieldNames ++ " Types: " ++ fieldTypes.

(** [const embeddingText = `${prompt} ${summary}`] *)
Definition embeddingText (prompt summary : string) : string :=
  prompt ++ " " ++ summary.

Definition purposes : list string :=
  ["signup"; "registration"; "application"; "survey"; "contact";
   "job"; "hiring"; "internship"; "resume"; "career";
   "medical"; "patient"; "health"; "appointment";
   "admission"; "college"; "university"; "education";
   "feedback"; "review"; "testimonial"].

(** [for (const purpose of purposes) if (lowerPrompt.includes(purpose))
    return purpose] *)
Fixpoint firstIncluded (lowerPrompt : string) (keywords : list string)
  : option string :=
  match keywords with
  | [] => None
  | purpose :: rest =>
      if includes lowerPrompt purpose then Some purpose
      else firstIncluded lowerPrompt rest
  end.

Definition extractPurpose (prompt : string) (fields : list Field.t) : string :=
  let lowerPrompt := JS.toLowerCase prompt in
  match firstIncluded lowerPrompt purposes with
  | Some purpose => purpose
  | None =>
      match fields with
      | firstField :: _ =>
          if String.eqb (Field.type firstField) "file" &&
             (includes (JS.toLowerCase (Field.label firstField)) "resume" ||
              includes (JS.toLowerCase (Field.label firstField)) "cv")
          then "job"
          else "general"
      | [] => "general"
      end
  end.

(** A text that ends in a character of a word. *)
Fixpoint endsInWord (s : string) : bool :=
  match s with
  | EmptyString => false
  | String c EmptyString => negb (JS.isWhiteSpace c)
  | String _ rest => endsInWord rest
  end.

(** A text that does not begin with a white-space character. *)
Definition noLeadingWhiteSpace (s : string) : bool :=
  match s with
  | EmptyString => true
  | String c _ => negb (JS.isWhiteSpace c)
  end.

End FormText.

(** A form without a title, with one field that has no label. *)
Module SampleDraft.
Local Open Scope string_scope.

Definition email : Field.t :=
  {| Field.id := "f1"; Field.type := "email"; Field.label := "";
     Field.name := "contactEmail"; Field.placeholder := None;
     Field.required := Some true; Field.options := None |}.

Definition form : Draft.t :=
  {| Draft.title := ""; Draft.description := None; Draft.schema := [email] |}.

End SampleDraft.

(** ** The model at work *)

Section Evaluation.
Local Open Scope string_scope.

Example split_empty : JS.splitWhitespace "" = [""].
Proof. reflexivity. Qed.

Example split_padded : JS.splitWhitespace " a  b " = [""; "a"; "b"; ""].
Proof. reflexivity. Qed.

Example lower_mixed : JS.toLowerCase "Job FORM 2" = "job form 2".
Proof. reflexivity. Qed.

(** The hash is the 31-multiplier string hash on 32 bits: it wraps. *)
Example hash_hello : hashCode "hello" = 99162322%Z.
Proof. reflexivity. Qed.

Example hash_wraps : hashCode "internship" = (-1590609842)%Z.
Proof. vm_compute. reflexivity. Qed.

Example toInt32_wraps : JS.toInt32 (2 ^ 31) = (- 2 ^ 31)%Z.
Proof. reflexivity. Qed.

Example slice_negative : JS.slice0 [1; 2; 3] (-1) = [1; 2].
Proof. reflexivity. Qed.

Example slice_long : JS.slice0 [1; 2; 3] 5 = [1; 2; 3].
Proof. reflexivity. Qed.

Example similarity_orthogonal :
  cosineSimilarity [1; 0]%float [0; 1]%float = 0%float.
Proof. vm_compute. reflexivity. Qed.

Example similarity_parallel :
  cosineSimilarity [2; 0]%float [5; 0]%float = 1%float.
Proof. vm_compute. reflexivity. Qed.

(** The scores of the sample records against the sample prompt. *)
Example sample_scores :
  map (fun f => (title f, score (generateEmbedding Sample.prompt) f)) Sample.docs =
  [("job", 0x1.df881df881df8p-1%float); ("survey", 0%float);
   ("intern", 0x1.2c8287ffc5daep-2%float); ("other", 1%float);
   ("job2", 0x1.df881df881df8p-1%float); ("blank", 0%float)].
Proof. vm_compute. reflexivity. Qed.

End Evaluation.

(** ** Facts on binary64 arithmetic

    The order of the binary64 values and the sign of a difference, derived
    from the specification of the primitive floats ([SpecFloat]). *)
Module FloatFacts.
Local Open Scope Z_scope.

Lemma digits2_pos_bounds (m : positive) :
  2 ^ (Zpos (digits2_pos m) - 1) <= Zpos m < 2 ^ Zpos (digits2_pos m).
Proof.
  induction m as [p IH|p IH|]; cbn [digits2_pos].
  - rewrite Pos2Z.inj_succ.
    replace (Z.succ (Zpos (digits2_pos p)) - 1) with (Z.succ (Zpos (digits2_pos p) - 1)) by lia.
    rewrite !Z.pow_succ_r by lia. lia.
  - rewrite Pos2Z.inj_succ.
    replace (Z.succ (Zpos (digits2_pos p)) - 1) with (Z.succ (Zpos (digits2_pos p) - 1)) by lia.
    rewrite !Z.pow_succ_r by lia. lia.
  - cbn. lia.
Qed.

Lemma iter_pos_shr_1_m (p : positive) : forall mrs,
  0 <= shr_m mrs -> shr_m (SpecFloat.iter_pos shr_1 p mrs) = shr_m mrs / 2 ^ Zpos p.
Proof.
  assert (step : forall mrs, 0 <= shr_m mrs -> shr_m (shr_1 mrs) = shr_m mrs / 2).
  { intros [m r s] Hm. cbn in Hm. cbn [shr_1 shr_m].
    destruct m as [|[q|q|]|q]; cbn [shr_m]; try lia; try reflexivity.
    - rewrite Pos2Z.inj_xI. apply Z.div_unique with 1; lia.
    - rewrite Pos2Z.inj_xO. apply Z.div_unique with 0; lia. }
  assert (nonneg : forall a b, 0 <= a -> 0 < b -> 0 <= a / b).
  { intros. apply Z.div_pos; lia. }
  assert (pow_pos : forall q, 0 < 2 ^ Zpos q) by (intros; apply Z.pow_pos_nonneg; lia).
  induction p as [p IH|p IH|]; intros mrs Hm; cbn [SpecFloat.iter_pos].
  - pose proof (step mrs Hm) as H1.
    assert (0 <= shr_m (shr_1 mrs)) as H1' by (rewrite H1; apply nonneg; lia).
    pose proof (IH _ H1') as H2.
    assert (0 <= shr_m (SpecFloat.iter_pos shr_1 p (shr_1 mrs))) as H2'
      by (rewrite H2; apply nonneg; auto).
    rewrite (IH _ H2'), H2, H1.
    rewrite !Z.div_div by (auto; lia).
    f_equal. replace (Z.pos p~1) with (1 + Z.pos p + Z.pos p) by lia.
    rewrite !Z.pow_add_r by lia. lia.
  - pose proof (IH _ Hm) as H2.
    assert (0 <= shr_m (SpecFloat.iter_pos shr_1 p mrs)) as H2'
      by (rewrite H2; apply nonneg; auto).
    rewrite (IH _ H2'), H2.
    rewrite !Z.div_div by (auto; lia).
    f_equal. replace (Z.pos p~0) with (Z.pos p + Z.pos p) by lia.
    rewrite !Z.pow_add_r by lia. lia.
  - rewrite step by auto. reflexivity.
Qed.

Lemma fexp_value (e : Z) : fexp prec emax e = Z.max (e - 53) (-1074).
Proof. reflexivity. Qed.

Lemma shr_m_of_loc (m : Z) (l : location) : shr_m (shr_record_of_loc m l) = m.
Proof. destruct l as [|[ | | ]]; reflexivity. Qed.

Lemma shr_fexp_pos (m e : Z) (l : location) :
  0 < m -> -1074 <= e ->
  0 < shr_m (fst (shr_fexp prec emax m e l)) /\
  -1074 <= snd (shr_fexp prec emax m e l).
Proof.
  intros Hm He. unfold shr_fexp, shr. rewrite fexp_value.
  destruct m as [|p|p]; try lia. cbn [Zdigits2].
  pose proof (digits2_pos_bounds p) as [Hlo Hhi].
  set (d := Zpos (digits2_pos p)) in *.
  assert (1 <= d) by (subst d; lia).
  destruct (Z.max (d + e - 53) (-1074) - e) as [|n|n] eqn:Hn; cbn [fst snd];
    rewrite ?shr_m_of_loc; try (split; lia).
  rewrite iter_pos_shr_1_m by (rewrite shr_m_of_loc; lia).
  rewrite shr_m_of_loc. split; [|lia].
  apply Z.div_str_pos. split; [apply Z.pow_pos_nonneg; lia|].
  apply Z.le_trans with (2 ^ (d - 1)); [|exact Hlo].
  apply Z.pow_le_mono_r; lia.
Qed.

Lemma round_nearest_even_ge (m : Z) (l : location) : m <= round_nearest_even m l.
Proof.
  destruct l as [|[ | | ]]; cbn [round_nearest_even]; try lia.
  destruct (Z.even m); lia.
Qed.

Lemma binary_round_aux_signed (s : bool) (m e : Z) (l : location) :
  0 < m -> -1074 <= e -> signed s (binary_round_aux prec emax s m e l).
Proof.
  intros Hm He. unfold binary_round_aux.
  pose proof (shr_fexp_pos m e l Hm He) as [H1 H2].
  destruct (shr_fexp prec emax m e l) as [mrs' e'] eqn:E1. cbn [fst snd] in H1, H2.
  pose proof (round_nearest_even_ge (shr_m mrs') (loc_of_shr_record mrs')) as Hr.
  assert (0 < round_nearest_even (shr_m mrs') (loc_of_shr_record mrs')) as Hm' by lia.
  pose proof (shr_fexp_pos _ _ loc_Exact Hm' H2) as [H3 _].
  destruct (shr_fexp prec emax _ e' loc_Exact) as [mrs'' e''] eqn:E2.
  cbn [fst] in H3.
  destruct (shr_m mrs'') as [|q|q]; try lia.
  destruct (e'' <=? emax - prec); reflexivity.
Qed.

Lemma binary_round_signed (s : bool) (m : positive) (e : Z) :
  -1074 <= e -> signed s (binary_round prec emax s m e).
Proof.
  intros He. unfold binary_round, shl_align. rewrite fexp_value.
  destruct (Z.max (Z.pos (digits2_pos m) + e - 53) (-1074) - e) eqn:Hd;
    apply binary_round_aux_signed; lia.
Qed.

Lemma shl_align_value (m : positive) (e e' : Z) :
  e' <= e -> Zpos (fst (shl_align m e e')) = Zpos m * 2 ^ (e - e').
Proof.
  intros Hle. unfold shl_align.
  destruct (e' - e) as [|d|d] eqn:Hd; cbn [fst]; try lia.
  - replace (e - e') with 0 by lia. rewrite Z.pow_0_r. lia.
  - replace (e - e') with (Zpos d) by lia.
    change (Pos.iter xO m d) with (shift_pos d m).
    rewrite shift_pos_correct, Z.pow_pos_fold. lia.
Qed.

Lemma canonical_exponent (m : positive) (e : Z) :
  SpecFloat.bounded prec emax m e = true ->
  Z.max (Zpos (digits2_pos m) + e - 53) (-1074) = e.
Proof.
  unfold SpecFloat.bounded, canonical_mantissa. rewrite fexp_value.
  intros Hb. apply andb_prop in Hb as [Hc _]. apply Z.eqb_eq in Hc. exact Hc.
Qed.

(** Two canonical mantissas, brought to the smaller exponent, compare as the
    pairs of exponent and mantissa do. *)
Lemma compare_aligned (mx my : positive) (ex ey : Z) :
  SpecFloat.bounded prec emax mx ex = true -> SpecFloat.bounded prec emax my ey = true ->
  (Zpos (fst (shl_align mx ex (Z.min ex ey))) ?=
   Zpos (fst (shl_align my ey (Z.min ex ey)))) =
  match ex ?= ey with
  | Eq => Pos.compare_cont Eq mx my
  | Lt => Lt
  | Gt => Gt
  end.
Proof.
  intros Hx Hy.
  apply canonical_exponent in Hx. apply canonical_exponent in Hy.
  pose proof (digits2_pos_bounds mx) as [Hxl Hxh].
  pose proof (digits2_pos_bounds my) as [Hyl Hyh].
  rewrite !shl_align_value by lia.
  destruct (Z.compare_spec ex ey) as [E|L|G].
  - subst ey. rewrite Z.min_id, Z.sub_diag, Z.pow_0_r, !Z.mul_1_r. reflexivity.
  - rewrite Z.min_l by lia. rewrite Z.sub_diag, Z.pow_0_r, Z.mul_1_r.
    apply Z.compare_lt_iff.
    assert (Zpos (digits2_pos my) = 53) as Dy by lia.
    assert (Zpos (digits2_pos mx) <= 53) as Dx by lia.
    rewrite Dy in Hyl.
    assert (2 ^ Zpos (digits2_pos mx) <= 2 ^ 53) by (apply Z.pow_le_mono_r; lia).
    assert (2 ^ 1 <= 2 ^ (ey - ex)) as Hp by (apply Z.pow_le_mono_r; lia).
    change (2 ^ 1) with 2 in Hp. change (2 ^ (53 - 1)) with (2 ^ 53 / 2) in Hyl.
    change (2 ^ 53) with 9007199254740992 in *.
    change (9007199254740992 / 2) with 4503599627370496 in Hyl.
    nia.
  - rewrite Z.min_r by lia. rewrite Z.sub_diag, Z.pow_0_r, Z.mul_1_r.
    apply Z.compare_gt_iff.
    assert (Zpos (digits2_pos mx) = 53) as Dx by lia.
    assert (Zpos (digits2_pos my) <= 53) as Dy by lia.
    rewrite Dx in Hxl.
    assert (2 ^ Zpos (digits2_pos my) <= 2 ^ 53) by (apply Z.pow_le_mono_r; lia).
    assert (2 ^ 1 <= 2 ^ (ex - ey)) as Hp by (apply Z.pow_le_mono_r; lia).
    change (2 ^ 1) with 2 in Hp. change (2 ^ (53 - 1)) with (2 ^ 53 / 2) in Hxl.
    change (2 ^ 53) with 9007199254740992 in *.
    change (9007199254740992 / 2) with 4503599627370496 in Hxl.
    nia.
Qed.

Lemma SFltb_zero_signed (s : bool) (r : spec_float) :
  signed s r -> SFltb (S754_zero false) r = negb s.
Proof. destruct r as [| | |]; cbn; try tauto; intros ->; destruct s; reflexivity. Qed.

Lemma SFltb_zero_normalize (d e : Z) :
  -1074 <= e ->
  SFltb (S754_zero false) (binary_normalize prec emax d e false) = (0 <? d).
Proof.
  intros He. destruct d as [|p|p]; cbn [binary_normalize].
  - reflexivity.
  - rewrite (SFltb_zero_signed false) by (apply binary_round_signed; lia).
    reflexivity.
  - rewrite (SFltb_zero_signed true) by (apply binary_round_signed; lia).
    reflexivity.
Qed.

(** The sign of a difference is exact: [0 < y - x] holds exactly when
    [x < y], for all binary64 values but NaN. *)
Lemma SFsub_sign (x y : spec_float) :
  valid_binary x = true -> valid_binary y = true ->
  x <> S754_nan -> y <> S754_nan ->
  SFltb (S754_zero false) (SFsub prec emax y x) = SFltb x y.
Proof.
  intros Vx Vy Nx Ny.
  destruct x as [sx|sx| |sx mx ex], y as [sy|sy| |sy my ey]; try congruence;
    try (destruct sx, sy; reflexivity); try (destruct sx; reflexivity);
    try (destruct sy; reflexivity).
  cbn [valid_binary] in Vx, Vy. cbn [SFsub].
  pose proof (canonical_exponent _ _ Vx) as Cx.
  pose proof (canonical_exponent _ _ Vy) as Cy.
  rewrite SFltb_zero_normalize by lia.
  pose proof (compare_aligned _ _ _ _ Vx Vy) as Hc.
  rewrite (Z.min_comm ey ex).
  set (MX := Zpos (fst (shl_align mx ex (Z.min ex ey)))) in *.
  set (MY := Zpos (fst (shl_align my ey (Z.min ex ey)))) in *.
  assert (0 < MX) by (subst MX; lia). assert (0 < MY) by (subst MY; lia).
  unfold SFltb, SFcompare.
  destruct sx, sy; cbn [cond_Zopp].
  all: destruct (ex ?= ey); destruct (Z.compare_spec MX MY) as [E|L|G];
    try discriminate Hc; try rewrite <- Hc; cbn [CompOpp].
  all: first [apply Z.ltb_lt; lia | apply Z.ltb_ge; lia].
Qed.

Lemma SFcompare_rank3 (x y : spec_float) :
  x <> S754_nan -> y <> S754_nan ->
  exists c, SFcompare x y = Some c /\ compared c (rank3 x) (rank3 y).
Proof.
  intros Nx Ny.
  destruct x as [sx|sx| |sx mx ex], y as [sy|sy| |sy my ey]; try congruence;
    try (destruct sx, sy; eexists; (split; [reflexivity|cbn; try reflexivity; lia]));
    try (destruct sx; eexists; (split; [reflexivity|cbn; try reflexivity; lia]));
    try (destruct sy; eexists; (split; [reflexivity|cbn; try reflexivity; lia])).
  cbn [SFcompare]. change (Pos.compare_cont Eq mx my) with (Pos.compare mx my).
  destruct sx, sy; eexists; (split; [reflexivity|]); cbn [rank3];
    destruct (Z.compare_spec ex ey); destruct (Pos.compare_spec mx my);
    cbn [compared CompOpp lt3]; subst; try reflexivity; lia.
Qed.

Lemma lt3_trans (a b c : Z * Z * Z) : lt3 a b -> lt3 b c -> lt3 a c.
Proof. destruct a as [[? ?] ?], b as [[? ?] ?], c as [[? ?] ?]; cbn; lia. Qed.

Lemma lt3_irrefl (a : Z * Z * Z) : ~ lt3 a a.
Proof. destruct a as [[? ?] ?]; cbn; lia. Qed.

Lemma lt3_total (a b : Z * Z * Z) : lt3 a b \/ a = b \/ lt3 b a.
Proof.
  destruct a as [[a1 a2] a3], b as [[b1 b2] b3]; cbn.
  destruct (Z.lt_total a1 b1) as [?|[?|?]]; try lia.
  destruct (Z.lt_total a2 b2) as [?|[?|?]]; try lia.
  destruct (Z.lt_total a3 b3) as [?|[?|?]]; try lia.
  subst. auto.
Qed.

Local Open Scope float_scope.

Lemma isNumber_iff (x : float) : isNumber x <-> Prim2SF x <> S754_nan.
Proof.
  unfold isNumber. rewrite FloatAxioms.eqb_spec. unfold SFeqb. split.
  - intros E N. rewrite N in E. discriminate.
  - intros N. destruct (SFcompare_rank3 _ _ N N) as [c [Hc Hr]]. rewrite Hc.
    destruct c; cbn in Hr; try reflexivity; exfalso; exact (lt3_irrefl _ Hr).
Qed.

Lemma SFcompare_number (x y : spec_float) (c : comparison) :
  SFcompare x y = Some c -> x <> S754_nan /\ y <> S754_nan.
Proof.
  destruct x, y; cbn; intros E; try discriminate; split; discriminate.
Qed.

(** How [<], [<=] and [===] read on ranks. *)
Lemma ltb_rank (x y : float) :
  (x <? y) = true <-> isNumber x /\ isNumber y /\ lt3 (frank x) (frank y).
Proof.
  rewrite FloatAxioms.ltb_spec, !isNumber_iff. unfold SFltb, frank. split.
  - destruct (SFcompare (Prim2SF x) (Prim2SF y)) as [c|] eqn:E; try discriminate.
    destruct (SFcompare_number _ _ _ E) as [Nx Ny].
    destruct (SFcompare_rank3 _ _ Nx Ny) as [c' [Hc Hr]].
    rewrite E in Hc. injection Hc as <-. destruct c; try discriminate. auto.
  - intros (Nx & Ny & L). destruct (SFcompare_rank3 _ _ Nx Ny) as [c [Hc Hr]].
    rewrite Hc. destruct c; cbn in Hr; try reflexivity; exfalso.
    + rewrite Hr in L. exact (lt3_irrefl _ L).
    + exact (lt3_irrefl _ (lt3_trans _ _ _ L Hr)).
Qed.

Lemma eqb_rank (x y : float) :
  (x =? y) = true <-> isNumber x /\ isNumber y /\ frank x = frank y.
Proof.
  rewrite FloatAxioms.eqb_spec, !isNumber_iff. unfold SFeqb, frank. split.
  - destruct (SFcompare (Prim2SF x) (Prim2SF y)) as [c|] eqn:E; try discriminate.
    destruct (SFcompare_number _ _ _ E) as [Nx Ny].
    destruct (SFcompare_rank3 _ _ Nx Ny) as [c' [Hc Hr]].
    rewrite E in Hc. injection Hc as <-. destruct c; try discriminate. auto.
  - intros (Nx & Ny & L). destruct (SFcompare_rank3 _ _ Nx Ny) as [c [Hc Hr]].
    rewrite Hc. destruct c; cbn in Hr; try reflexivity; exfalso;
      rewrite L in Hr; exact (lt3_irrefl _ Hr).
Qed.

Lemma leb_rank (x y : float) :
  (x <=? y) = true <->
  isNumber x /\ isNumber y /\ (lt3 (frank x) (frank y) \/ frank x = frank y).
Proof.
  rewrite FloatAxioms.leb_spec, !isNumber_iff. unfold SFleb, frank. split.
  - destruct (SFcompare (Prim2SF x) (Prim2SF y)) as [c|] eqn:E; try discriminate.
    destruct (SFcompare_number _ _ _ E) as [Nx Ny].
    destruct (SFcompare_rank3 _ _ Nx Ny) as [c' [Hc Hr]].
    rewrite E in Hc. injection Hc as <-. destruct c; try discriminate; auto.
  - intros (Nx & Ny & L). destruct (SFcompare_rank3 _ _ Nx Ny) as [c [Hc Hr]].
    rewrite Hc. destruct c; cbn in Hr; try reflexivity; exfalso.
    destruct L as [L|L].
    + exact (lt3_irrefl _ (lt3_trans _ _ _ L Hr)).
    + rewrite L in Hr. exact (lt3_irrefl _ Hr).
Qed.

(** The comparator of the ranking is exact on numbers: the sign of
    [y - x] tells whether [x < y]. *)
Lemma sub_sign (x y : float) :
  isNumber x -> isNumber y -> (0 <? y - x) = (x <? y).
Proof.
  rewrite !isNumber_iff. intros Nx Ny.
  rewrite !FloatAxioms.ltb_spec, FloatAxioms.sub_spec.
  change (Prim2SF 0) with (S754_zero false).
  apply SFsub_sign; auto using FloatAxioms.Prim2SF_valid.
Qed.

Lemma ltb_leb (x y : float) : (x <? y) = true -> (x <=? y) = true.
Proof. rewrite ltb_rank, leb_rank. tauto. Qed.

Lemma leb_total (x y : float) :
  isNumber x -> isNumber y -> (x <? y) = false -> (y <=? x) = true.
Proof.
  intros Nx Ny L. apply leb_rank. repeat split; auto.
  destruct (lt3_total (frank x) (frank y)) as [H|[H|H]]; auto.
  assert ((x <? y) = true) by (apply ltb_rank; auto). congruence.
Qed.

Lemma leb_trans (x y z : float) :
  (x <=? y) = true -> (y <=? z) = true -> (x <=? z) = true.
Proof.
  rewrite !leb_rank. intros (Nx & Ny & [H|H]) (_ & Nz & [K|K]);
    repeat split; auto.
  - left. exact (lt3_trans _ _ _ H K).
  - left. rewrite <- K. exact H.
  - left. rewrite H. exact K.
  - right. congruence.
Qed.

Lemma ltb_leb_trans (t x y : float) :
  (t <? x) = true -> (x <=? y) = true -> (t <? y) = true.
Proof.
  rewrite !ltb_rank, leb_rank. intros (Nt & Nx & H) (_ & Ny & [K|K]);
    repeat split; auto.
  - exact (lt3_trans _ _ _ H K).
  - rewrite <- K. exact H.
Qed.

Lemma eqb_not_ltb (x y : float) : (x =? y) = true -> (x <? y) = false.
Proof.
  rewrite eqb_rank. intros (Nx & Ny & E).
  destruct (x <? y) eqn:L; auto. apply ltb_rank in L as (_ & _ & L).
  rewrite E in L. destruct (lt3_irrefl _ L).
Qed.

Lemma eqb_sym (x y : float) : (x =? y) = (y =? x).
Proof.
  destruct (x =? y) eqn:E, (y =? x) eqn:E'; auto.
  - apply eqb_rank in E as (Nx & Ny & E).
    assert ((y =? x) = true) by (apply eqb_rank; auto). congruence.
  - apply eqb_rank in E' as (Nx & Ny & E').
    assert ((x =? y) = true) by (apply eqb_rank; auto). congruence.
Qed.

(** Multiplication is commutative, NaN included. *)
Lemma mul_comm (x y : float) : x * y = y * x.
Proof.
  apply Prim2SF_inj. rewrite !FloatAxioms.mul_spec. unfold SF64mul, SFmul.
  destruct (Prim2SF x) as [s|s| |s m e], (Prim2SF y) as [s'|s'| |s' m' e'];
    try reflexivity; rewrite (xorb_comm s s'); try reflexivity.
  rewrite (Pos.mul_comm m m'), (Z.add_comm e e'). reflexivity.
Qed.

(** The two zeros are the only values equal to zero. *)
Lemma eqb_zero (x : float) : (x =? 0) = true -> x = 0 \/ x = (-0)%float.
Proof.
  rewrite eqb_rank. intros (Nx & _ & E). apply isNumber_iff in Nx.
  unfold frank in E. change (Prim2SF 0) with (S754_zero false) in E.
  rewrite <- (SF2Prim_Prim2SF x).
  destruct (Prim2SF x) as [s|s| |s m e]; try congruence.
  - destruct s; [right|left]; reflexivity.
  - destruct s; discriminate.
  - destruct s; discriminate.
Qed.

End FloatFacts.

(** ** Lists: prefixes and filters *)

Section ListFacts.
Context {A : Type}.

Lemma In_firstn_or_full (n : nat) (x : A) (l : list A) :
  In x l -> In x (firstn n l) \/ List.length (firstn n l) = n.
Proof.
  revert n. induction l as [|y l IH]; intros n Hin; [destruct Hin|].
  destruct n as [|n]; [right; reflexivity|]. cbn [firstn List.length].
  destruct Hin as [->|Hin]; [left; left; reflexivity|].
  destruct (IH n Hin) as [H|H]; [left; right; exact H|right; congruence].
Qed.

Lemma In_of_firstn (n : nat) (x : A) (l : list A) :
  In x (firstn n l) -> In x l.
Proof.
  intros H. rewrite <- (firstn_skipn n l). apply in_or_app. left. exact H.
Qed.

Lemma filter_firstn_prefix (p : A -> bool) (n : nat) (l : list A) :
  exists rest, filter p l = filter p (firstn n l) ++ rest.
Proof.
  exists (filter p (skipn n l)).
  rewrite <- filter_app, firstn_skipn. reflexivity.
Qed.

Lemma filter_none (p : A -> bool) (l : list A) :
  Forall (fun x => p x = false) l -> filter p l = [].
Proof.
  induction 1 as [|x l Hx _ IH]; cbn; [reflexivity|]. rewrite Hx. exact IH.
Qed.

Lemma Forall_firstn (P : A -> Prop) (n : nat) (l : list A) :
  Forall P l -> Forall P (firstn n l).
Proof.
  intros H. rewrite <- (firstn_skipn n l) in H.
  apply Forall_app in H. tauto.
Qed.

Lemma StronglySorted_firstn (R : A -> A -> Prop) (n : nat) (l : list A) :
  StronglySorted R l -> StronglySorted R (firstn n l).
Proof.
  intros H. revert n. induction H as [|x l Hl IH Hx]; intros n.
  - rewrite firstn_nil. constructor.
  - destruct n as [|n]; cbn [firstn]; constructor; auto using Forall_firstn.
Qed.

Lemma StronglySorted_filter (R : A -> A -> Prop) (p : A -> bool) (l : list A) :
  StronglySorted R l -> StronglySorted R (filter p l).
Proof.
  induction 1 as [|x l Hl IH Hx]; cbn [filter]; [constructor|].
  destruct (p x); [constructor|]; auto.
  apply Forall_forall. intros y Hy. apply filter_In in Hy as [Hy _].
  rewrite Forall_forall in Hx. auto.
Qed.

End ListFacts.

Lemma filter_map_comm {A B : Type} (f : A -> B) (p : B -> bool) (l : list A) :
  filter p (map f l) = map f (filter (fun x => p (f x)) l).
Proof.
  induction l as [|x l IH]; cbn; [reflexivity|].
  destruct (p (f x)); cbn; rewrite IH; reflexivity.
Qed.

Lemma StronglySorted_map {A B : Type} (f : A -> B) (R : B -> B -> Prop)
  (l : list A) :
  StronglySorted (fun x y => R (f x) (f y)) l -> StronglySorted R (map f l).
Proof.
  induction 1 as [|x l Hl IH Hx]; cbn [map]; constructor; auto.
  apply Forall_map. exact Hx.
Qed.

(** ** The sort of the ranking *)

Section Ranking.
Local Open Scope float_scope.
Import FloatFacts.

(** Any comparator permutes. *)
Lemma insertSorted_perm {A : Type} (cmp : A -> A -> float) (x : A) (l : list A) :
  Permutation (x :: l) (insertSorted cmp x l).
Proof.
  induction l as [|y l IH]; cbn [insertSorted]; [reflexivity|].
  destruct (0 <? cmp x y); [|reflexivity].
  rewrite perm_swap. constructor. exact IH.
Qed.

Lemma arraySort_perm {A : Type} (cmp : A -> A -> float) (l : list A) :
  Permutation l (arraySort cmp l).
Proof.
  induction l as [|x l IH]; cbn [arraySort fold_right]; [constructor|].
  rewrite <- insertSorted_perm. constructor. exact IH.
Qed.

(** On numbers the comparator asks for a swap exactly when the first score is
    the smaller one. *)
Lemma bySimilarity_swap (x y : Scored) :
  isNumber (similarity x) -> isNumber (similarity y) ->
  (0 <? bySimilarity x y) = (similarity x <? similarity y).
Proof. intros Nx Ny. unfold bySimilarity. apply sub_sign; assumption. Qed.

Lemma insertSorted_sorted (x : Scored) (l : list Scored) :
  isNumber (similarity x) -> numbered l ->
  StronglySorted descending l ->
  StronglySorted descending (insertSorted bySimilarity x l).
Proof.
  intros Nx Nl Hs. induction Hs as [|y l Hl IH Hy]; cbn [insertSorted].
  - repeat constructor.
  - apply Forall_cons_iff in Nl as [Ny Nl].
    rewrite bySimilarity_swap by assumption.
    destruct (similarity x <? similarity y) eqn:L.
    + constructor; [auto|].
      apply (Permutation_Forall (insertSorted_perm bySimilarity x l)).
      constructor; [|exact Hy]. apply ltb_leb. exact L.
    + assert (descending x y) as Hxy by (apply leb_total; assumption).
      constructor; [constructor; assumption|].
      constructor; [exact Hxy|].
      eapply Forall_impl; [|exact Hy]. intros z Hz.
      unfold descending in *. eapply leb_trans; eassumption.
Qed.

Lemma numbered_perm (l l' : list Scored) :
  Permutation l l' -> numbered l -> numbered l'.
Proof. intros P. apply Permutation_Forall. exact P. Qed.

Lemma arraySort_sorted (l : list Scored) :
  numbered l -> StronglySorted descending (arraySort bySimilarity l).
Proof.
  induction l as [|x l IH]; intros Nl; cbn [arraySort fold_right].
  - constructor.
  - apply Forall_cons_iff in Nl as [Nx Nl].
    apply insertSorted_sorted; auto.
    exact (numbered_perm _ _ (arraySort_perm bySimilarity l) Nl).
Qed.

(** The sort is stable: the items of one score keep their order. *)
Lemma insertSorted_stable (s : float) (x : Scored) (l : list Scored) :
  isNumber (similarity x) -> numbered l ->
  filter (fun i => similarity i =? s) (insertSorted bySimilarity x l) =
  filter (fun i => similarity i =? s) (x :: l).
Proof.
  intros Nx Nl. induction Nl as [|y l Ny Nl IH]; [reflexivity|].
  cbn [insertSorted]. rewrite bySimilarity_swap by assumption.
  destruct (similarity x <? similarity y) eqn:L; [|reflexivity].
  cbn [filter] in *. rewrite IH.
  destruct (similarity x =? s) eqn:Ex, (similarity y =? s) eqn:Ey; try reflexivity.
  exfalso. apply eqb_rank in Ex as (_ & _ & Ex). apply eqb_rank in Ey as (_ & _ & Ey).
  apply ltb_rank in L as (_ & _ & L). rewrite Ex, Ey in L.
  exact (lt3_irrefl _ L).
Qed.

Lemma arraySort_stable (s : float) (l : list Scored) :
  numbered l ->
  filter (fun i => similarity i =? s) (arraySort bySimilarity l) =
  filter (fun i => similarity i =? s) l.
Proof.
  induction l as [|x l IH]; intros Nl; [reflexivity|].
  apply Forall_cons_iff in Nl as [Nx Nl]. cbn [arraySort fold_right].
  rewrite insertSorted_stable;
    [|assumption|exact (numbered_perm _ _ (arraySort_perm bySimilarity l) Nl)].
  cbn [filter]. fold (arraySort bySimilarity l). rewrite IH by assumption.
  reflexivity.
Qed.

(** In a descending list the items above the threshold come first, so that
    cutting the list and filtering it commute. *)
Lemma filter_firstn_sorted (n : nat) (l : list Scored) :
  StronglySorted descending l ->
  filter (fun i => THRESHOLD <? similarity i) (firstn n l) =
  firstn n (filter (fun i => THRESHOLD <? similarity i) l).
Proof.
  intros Hs. revert n. induction Hs as [|x l Hl IH Hx]; intros n.
  - cbn [filter]. rewrite !firstn_nil. reflexivity.
  - destruct n as [|n]; [reflexivity|]. cbn [firstn filter].
    destruct (THRESHOLD <? similarity x) eqn:Ax.
    + cbn [firstn]. rewrite IH. reflexivity.
    + assert (Forall (fun i => (THRESHOLD <? similarity i) = false) l) as Hb.
      { eapply Forall_impl; [|exact Hx]. intros y Hy.
        destruct (THRESHOLD <? similarity y) eqn:Ay; [|reflexivity].
        rewrite (ltb_leb_trans _ _ _ Ay Hy) in Ax. discriminate. }
      rewrite (filter_none _ _ Hb). cbn [firstn].
      apply filter_none. apply Forall_firstn. exact Hb.
Qed.

End Ranking.

(** ** The ranking of the candidates *)

Section RankFacts.
Local Open Scope float_scope.
Import FloatFacts.
Variable pe : list float.

Lemma StronglySorted_impl_in {A : Type} (R R' : A -> A -> Prop) (l : list A) :
  (forall x y, In x l -> In y l -> R x y -> R' x y) ->
  StronglySorted R l -> StronglySorted R' l.
Proof.
  intros Himp Hs. induction Hs as [|x l Hl IH Hx]; constructor.
  - apply IH. intros y z Hy Hz. apply Himp; right; assumption.
  - rewrite Forall_forall in *. intros y Hy.
    apply Himp; [left; reflexivity|right; exact Hy|auto].
Qed.

(** Every item of the sorted array is the scored form of its record. *)
Lemma sorted_items (forms : list IForm) :
  Forall (fun i => i = scoreForm pe (form i))
    (arraySort bySimilarity (map (scoreForm pe) forms)).
Proof.
  eapply Permutation_Forall; [apply arraySort_perm|].
  apply Forall_map. apply Forall_forall. reflexivity.
Qed.

Lemma sorted_items_filter (p : IForm -> bool) (q : Scored -> bool)
  (forms : list IForm) (l : list Scored) :
  (forall f, q (scoreForm pe f) = p f) ->
  Forall (fun i => i = scoreForm pe (form i)) l ->
  filter p (map form l) = map form (filter q l).
Proof.
  intros Hpq Hl. rewrite filter_map_comm. f_equal.
  apply filter_ext_in. intros i Hi. rewrite Forall_forall in Hl.
  rewrite (Hl i Hi) at 2. symmetry. apply Hpq.
Qed.

Lemma ranked_perm (forms : list IForm) : Permutation forms (ranked pe forms).
Proof.
  unfold ranked. rewrite <- arraySort_perm, map_map. cbn [form scoreForm].
  rewrite map_id. reflexivity.
Qed.

Lemma numbered_scores (forms : list IForm) :
  scoresAreNumbers pe forms -> numbered (map (scoreForm pe) forms).
Proof. intros H. apply Forall_map. exact H. Qed.

Lemma ranked_sorted (forms : list IForm) :
  scoresAreNumbers pe forms ->
  StronglySorted (bySimilarityDesc pe) (ranked pe forms).
Proof.
  intros Hn. unfold ranked. apply StronglySorted_map.
  pose proof (sorted_items forms) as Hi. rewrite Forall_forall in Hi.
  eapply StronglySorted_impl_in;
    [|apply arraySort_sorted, numbered_scores, Hn].
  intros x y Hx Hy Hd. unfold bySimilarityDesc, score.
  rewrite <- (Hi x Hx), <- (Hi y Hy). exact Hd.
Qed.

(** The items of one score are ranked in the order of the candidates. *)
Lemma ranked_stable (s : float) (forms : list IForm) :
  scoresAreNumbers pe forms ->
  filter (fun f => score pe f =? s) (ranked pe forms) =
  filter (fun f => score pe f =? s) forms.
Proof.
  intros Hn. unfold ranked.
  rewrite (sorted_items_filter (fun f => score pe f =? s)
             (fun i => similarity i =? s) forms)
    by (reflexivity || apply sorted_items).
  rewrite arraySort_stable by (apply numbered_scores, Hn).
  rewrite filter_map_comm, map_map. cbn [form scoreForm]. apply map_id.
Qed.

(** [rank] filters a slice of the ranked candidates. *)
Lemma rank_as_filter (forms : list IForm) (k : Z) :
  rank pe forms k = filter (relevant pe) (JS.slice0 (ranked pe forms) k).
Proof.
  unfold rank, ranked, JS.slice0. rewrite length_map.
  set (sorted := arraySort bySimilarity (map (scoreForm pe) forms)).
  assert (Hcut : forall n, filter (relevant pe) (firstn n (map form sorted)) =
                           map form (filter (fun item => THRESHOLD <? similarity item)
                                       (firstn n sorted))).
  { intros n. rewrite firstn_map.
    apply (sorted_items_filter _ _ forms); [reflexivity|].
    apply Forall_firstn, sorted_items. }
  destruct (k <? 0)%Z; symmetry; apply Hcut.
Qed.

(** For [k >= 0] the result is made of the first [k] relevant candidates. *)
Lemma rank_top (forms : list IForm) (k : Z) :
  (0 <= k)%Z -> scoresAreNumbers pe forms ->
  rank pe forms k =
  firstn (Z.to_nat k) (filter (relevant pe) (ranked pe forms)).
Proof.
  intros Hk Hn. unfold rank, ranked, JS.slice0.
  destruct (Z.ltb_spec k 0); [lia|].
  rewrite filter_firstn_sorted by (apply arraySort_sorted, numbered_scores, Hn).
  rewrite <- firstn_map. f_equal. symmetry.
  apply (sorted_items_filter _ _ forms); [reflexivity|apply sorted_items].
Qed.

Lemma rank_nil (k : Z) : rank pe [] k = [].
Proof.
  unfold rank, JS.slice0. cbn [map arraySort fold_right List.length].
  destruct (k <? 0)%Z; rewrite firstn_nil; reflexivity.
Qed.

Lemma rank_incl (forms : list IForm) (k : Z) (f : IForm) :
  In f (rank pe forms k) -> In f forms.
Proof.
  rewrite rank_as_filter. intros Hin. apply filter_In in Hin as [Hin _].
  apply (Permutation_in f (Permutation_sym (ranked_perm forms))).
  unfold JS.slice0 in Hin.
  destruct (k <? 0)%Z; eapply In_of_firstn; exact Hin.
Qed.

Lemma rank_relevant (forms : list IForm) (k : Z) :
  Forall (fun f => relevant pe f = true) (rank pe forms k).
Proof.
  rewrite rank_as_filter. apply Forall_forall. intros f Hin.
  apply filter_In in Hin. tauto.
Qed.

End RankFacts.

(** ** The record store *)

Section StoreFacts.

Lemma exec_resolves (query : list IForm -> list IForm) (w : World) :
  nextResolves w = true ->
  Mongo.exec query w = (Resolved (query (collection w)), afterQuery w).
Proof.
  unfold nextResolves, afterQuery, Mongo.exec.
  destruct (faults w) as [|[|] later]; intros E; try discriminate; reflexivity.
Qed.

Lemma exec_rejects (query : list IForm -> list IForm) (w : World) :
  nextResolves w = false ->
  exists reason, Mongo.exec query w = (Rejected reason, afterQuery w).
Proof.
  unfold nextResolves, afterQuery, Mongo.exec.
  destruct (faults w) as [|[|] later]; intros E; try discriminate.
  eexists. reflexivity.
Qed.

Lemma afterQuery_collection (w : World) : collection (afterQuery w) = collection w.
Proof. unfold afterQuery, Mongo.exec. destruct (faults w) as [|[|] ?]; reflexivity. Qed.

Lemma afterQuery_console (w : World) : console (afterQuery w) = console w.
Proof. unfold afterQuery, Mongo.exec. destruct (faults w) as [|[|] ?]; reflexivity. Qed.

Lemma afterQuery_scored (w : World) : scored (afterQuery w) = scored w.
Proof. unfold afterQuery, Mongo.exec. destruct (faults w) as [|[|] ?]; reflexivity. Qed.

Lemma afterQuery_faults (w : World) : faults (afterQuery w) = tl (faults w).
Proof.
  unfold afterQuery, Mongo.exec.
  destruct (faults w) as [|[|] ?] eqn:E; cbn; auto.
Qed.

Lemma limit_incl (n : Z) (docs : list IForm) (f : IForm) :
  In f (Mongo.limit n docs) -> In f docs.
Proof.
  unfold Mongo.limit. destruct (n =? 0)%Z; [auto|apply In_of_firstn].
Qed.

Lemma limit_length (n : Z) (docs : list IForm) :
  (0 < n)%Z -> (Z.of_nat (List.length (Mongo.limit n docs)) <= n)%Z.
Proof.
  intros Hn. unfold Mongo.limit. destruct (Z.eqb_spec n 0); [lia|].
  rewrite length_firstn. lia.
Qed.

Lemma insertByDate_perm (x : IForm) (l : list IForm) :
  Permutation (x :: l) (Mongo.insertByDate x l).
Proof.
  induction l as [|y l IH]; cbn [Mongo.insertByDate]; [reflexivity|].
  destruct (createdAt x <? createdAt y)%Z; [|reflexivity].
  rewrite perm_swap. constructor. exact IH.
Qed.

Lemma sortCreatedAtDesc_perm (l : list IForm) :
  Permutation l (Mongo.sortCreatedAtDesc l).
Proof.
  induction l as [|x l IH]; cbn [Mongo.sortCreatedAtDesc fold_right];
    [constructor|].
  rewrite <- insertByDate_perm. constructor. exact IH.
Qed.

Lemma insertByDate_sorted (x : IForm) (l : list IForm) :
  StronglySorted byCreatedAtDesc l ->
  StronglySorted byCreatedAtDesc (Mongo.insertByDate x l).
Proof.
  induction 1 as [|y l Hl IH Hy]; cbn [Mongo.insertByDate].
  - repeat constructor.
  - destruct (Z.ltb_spec (createdAt x) (createdAt y)) as [L|G].
    + constructor; [exact IH|].
      apply (Permutation_Forall (insertByDate_perm x l)).
      constructor; [unfold byCreatedAtDesc; lia|exact Hy].
    + constructor; [constructor; assumption|].
      constructor; [exact G|].
      eapply Forall_impl; [|exact Hy]. unfold byCreatedAtDesc. intros; lia.
Qed.

Lemma sortCreatedAtDesc_sorted (l : list IForm) :
  StronglySorted byCreatedAtDesc (Mongo.sortCreatedAtDesc l).
Proof.
  induction l as [|x l IH]; cbn [Mongo.sortCreatedAtDesc fold_right].
  - constructor.
  - apply insertByDate_sorted. exact IH.
Qed.

Lemma candidates_owned (owner : string) (w : World) :
  Forall (fun f => userId f = owner /\ embedding f <> None) (candidates owner w).
Proof.
  apply Forall_forall. intros f Hin. apply limit_incl in Hin.
  apply filter_In in Hin as [_ Hf]. apply andb_prop in Hf as [Ho He].
  split; [apply String.eqb_eq; exact Ho|].
  unfold Mongo.hasEmbedding in He. destruct (embedding f); congruence.
Qed.

Lemma candidates_scored (owner : string) (w : World) :
  List.length (filter Mongo.hasEmbedding (candidates owner w)) =
  List.length (candidates owner w).
Proof.
  f_equal. apply forallb_filter_id. apply forallb_forall. intros f Hin.
  pose proof (candidates_owned owner w) as H. rewrite Forall_forall in H.
  destruct (H f Hin) as [_ He]. unfold Mongo.hasEmbedding.
  destruct (embedding f); congruence.
Qed.

End StoreFacts.

(** ** The two paths of the retriever *)

Section Paths.
Variables (owner prompt : string) (topK : Z) (w : World).

Lemma retrieve_primary :
  nextResolves w = true ->
  fst (retrieveRelevantForms owner prompt topK w) =
  Resolved (rank (generateEmbedding prompt) (candidates owner w) topK).
Proof.
  intros Hr. unfold retrieveRelevantForms. rewrite exec_resolves by exact Hr.
  fold (candidates owner w).
  destruct (candidates owner w) as [|f forms] eqn:E; cbn [List.length Nat.eqb fst].
  - rewrite rank_nil. reflexivity.
  - reflexivity.
Qed.

Lemma retrieve_primary_world :
  nextResolves w = true ->
  console (snd (retrieveRelevantForms owner prompt topK w)) = console w /\
  scored (snd (retrieveRelevantForms owner prompt topK w)) =
  scored w + List.length (candidates owner w).
Proof.
  intros Hr. unfold retrieveRelevantForms. rewrite exec_resolves by exact Hr.
  fold (candidates owner w). rewrite candidates_scored.
  destruct (candidates owner w) as [|f forms] eqn:E; cbn [List.length Nat.eqb snd];
    cbn [tick console scored]; rewrite afterQuery_console, afterQuery_scored;
    split; auto.
Qed.

Lemma retrieve_fallback :
  nextResolves w = false ->
  retrieveRelevantForms owner prompt topK w =
  Mongo.exec (recent owner topK) (consoleError ERROR_LINE (afterQuery w)).
Proof.
  intros Hr. unfold retrieveRelevantForms.
  match goal with
  | |- context [Mongo.exec ?q w] =>
      destruct (exec_rejects q w Hr) as [reason E]; rewrite E
  end.
  reflexivity.
Qed.

End Paths.

(** ** The retriever: top-K, ties, and a non-positive [k] *)

Section Retriever.
Local Open Scope float_scope.
Import FloatFacts.

Lemma relevant_not_threshold (pe : list float) (f : IForm) :
  relevant pe f = true -> (score pe f =? THRESHOLD) = false.
Proof.
  unfold relevant. intros L. destruct (score pe f =? THRESHOLD) eqn:E; auto.
  rewrite eqb_sym in E. apply eqb_not_ltb in E. congruence.
Qed.

(** Records of one score are relevant together. *)
Lemma relevant_of_score (pe : list float) (s : float) (f g : IForm) :
  (score pe f =? s) = true -> (score pe g =? s) = true ->
  relevant pe f = relevant pe g.
Proof.
  intros Ef Eg. apply eqb_rank in Ef as (Nf & _ & Ef).
  apply eqb_rank in Eg as (Ng & _ & Eg). unfold relevant.
  destruct (THRESHOLD <? score pe f) eqn:Lf, (THRESHOLD <? score pe g) eqn:Lg;
    auto; exfalso.
  - apply ltb_rank in Lf as (Nt & _ & Lf).
    assert ((THRESHOLD <? score pe g) = true); [|congruence].
    apply ltb_rank. repeat split; auto. congruence.
  - apply ltb_rank in Lg as (Nt & _ & Lg).
    assert ((THRESHOLD <? score pe f) = true); [|congruence].
    apply ltb_rank. repeat split; auto. congruence.
Qed.

Lemma filter_all_or_none {A : Type} (p q : A -> bool) (l : list A) :
  (forall x y, q x = true -> q y = true -> p x = p y) ->
  filter p (filter q l) = filter q l \/ filter p (filter q l) = [].
Proof.
  intros Hpq. destruct (filter q l) as [|x l'] eqn:E; [left; reflexivity|].
  assert (Hq : forall y, In y (x :: l') -> q y = true).
  { intros y Hy. rewrite <- E in Hy. apply filter_In in Hy. tauto. }
  destruct (p x) eqn:Px; [left|right].
  - apply forallb_filter_id. apply forallb_forall. intros y Hy.
    rewrite <- Px. apply Hpq; apply Hq; [exact Hy|left; reflexivity].
  - apply filter_none. apply Forall_forall. intros y Hy.
    rewrite <- Px. apply Hpq; apply Hq; [exact Hy|left; reflexivity].
Qed.

Lemma filter_comm {A : Type} (p q : A -> bool) (l : list A) :
  filter p (filter q l) = filter q (filter p l).
Proof.
  induction l as [|x l IH]; [reflexivity|]. cbn [filter].
  destruct (p x) eqn:Px, (q x) eqn:Qx; cbn [filter]; rewrite ?Px, ?Qx, IH;
    reflexivity.
Qed.

End Retriever.

(** C1: on the primary path, for every set of candidates (whose scores are
    numbers) and every [k >= 0], the result has at most [k] records, is sorted
    by descending similarity, holds only records of similarity strictly above
    0.1 (a similarity equal to 0.1 is excluded), and is made of the first [k]
    relevant candidates in ranked order, so that a relevant candidate is
    missing only when [k] records are returned. *)
Theorem top_k_contract (owner prompt : string) (k : Z) (w : World) :
  (0 <= k)%Z ->
  nextResolves w = true ->
  scoresAreNumbers (generateEmbedding prompt) (candidates owner w) ->
  exists result,
    fst (retrieveRelevantForms owner prompt k w) = Resolved result /\
    (Z.of_nat (List.length result) <= k)%Z /\
    StronglySorted (bySimilarityDesc (generateEmbedding prompt)) result /\
    Forall (fun f =>
              (THRESHOLD <? score (generateEmbedding prompt) f)%float = true /\
              (score (generateEmbedding prompt) f =? THRESHOLD)%float = false)
      result /\
    result =
      firstn (Z.to_nat k)
        (filter (relevant (generateEmbedding prompt))
           (ranked (generateEmbedding prompt) (candidates owner w))) /\
    (forall f, In f (candidates owner w) ->
               relevant (generateEmbedding prompt) f = true ->
               In f result \/ Z.of_nat (List.length result) = k).
Proof.
  intros Hk Hr Hn. set (pe := generateEmbedding prompt) in *.
  exists (rank pe (candidates owner w) k).
  pose proof (rank_top pe (candidates owner w) k Hk Hn) as Etop.
  split; [apply retrieve_primary; exact Hr|].
  split; [rewrite Etop, length_firstn; lia|].
  split.
  { rewrite Etop. apply StronglySorted_firstn, StronglySorted_filter.
    apply ranked_sorted. exact Hn. }
  split.
  { eapply Forall_impl; [|apply rank_relevant]. intros f Hf. split.
    - exact Hf.
    - apply relevant_not_threshold. exact Hf. }
  split; [exact Etop|].
  intros f Hin Hrel. rewrite Etop.
  assert (In f (filter (relevant pe) (ranked pe (candidates owner w)))) as Hf.
  { apply filter_In. split; [|exact Hrel].
    apply (Permutation_in f (ranked_perm pe (candidates owner w))). exact Hin. }
  destruct (In_firstn_or_full (Z.to_nat k) f _ Hf) as [H|H]; [left; exact H|].
  right. rewrite H. lia.
Qed.

Lemma top_k_contract_witness :
  (0 <= 2)%Z /\
  nextResolves (Sample.world []) = true /\
  exists result,
    fst (retrieveRelevantForms "u1" Sample.prompt 2 (Sample.world [])) =
    Resolved result /\
    (Z.of_nat (List.length result) <= 2)%Z /\
    StronglySorted (bySimilarityDesc (generateEmbedding Sample.prompt)) result /\
    Forall (fun f =>
              (THRESHOLD <? score (generateEmbedding Sample.prompt) f)%float = true /\
              (score (generateEmbedding Sample.prompt) f =? THRESHOLD)%float = false)
      result /\
    result =
      firstn (Z.to_nat 2)
        (filter (relevant (generateEmbedding Sample.prompt))
           (ranked (generateEmbedding Sample.prompt)
              (candidates "u1" (Sample.world [])))) /\
    (forall f, In f (candidates "u1" (Sample.world [])) ->
               relevant (generateEmbedding Sample.prompt) f = true ->
               In f result \/ Z.of_nat (List.length result) = 2%Z).
Proof.
  split; [lia|]. split; [reflexivity|].
  apply (top_k_contract "u1" Sample.prompt 2 (Sample.world [])).
  - lia.
  - reflexivity.
  - unfold scoresAreNumbers, isNumber. vm_compute. repeat constructor.
Defined.

(** C3, as the code has it: there is no guard on [k].  With [k = 0] the
    primary path returns the empty sequence; with a negative [k] and scores
    that are numbers, [slice(0, k)] drops the last [-k] ranked candidates and
    the relevant ones among the others are returned. *)
Theorem nonpositive_k (owner prompt : string) (k : Z) (w : World) :
  (k <= 0)%Z ->
  nextResolves w = true ->
  (k = 0%Z -> fst (retrieveRelevantForms owner prompt k w) = Resolved []) /\
  (k < 0 ->
   scoresAreNumbers (generateEmbedding prompt) (candidates owner w) ->
   fst (retrieveRelevantForms owner prompt k w) =
   Resolved
     (filter (relevant (generateEmbedding prompt))
        (firstn (List.length (candidates owner w) - Z.to_nat (- k))
           (ranked (generateEmbedding prompt) (candidates owner w)))))%Z.
Proof.
  intros Hk Hr. rewrite (retrieve_primary owner prompt k w Hr), rank_as_filter.
  split.
  - intros ->. reflexivity.
  - intros Hneg _. unfold JS.slice0. destruct (Z.ltb_spec k 0); [|lia].
    do 3 f_equal.
    rewrite <- (Permutation_length
                  (ranked_perm (generateEmbedding prompt) (candidates owner w))).
    lia.
Qed.

Lemma nonpositive_k_witness :
  (-1 <= 0)%Z /\
  nextResolves (Sample.world []) = true /\
  scoresAreNumbers (generateEmbedding Sample.prompt)
    (candidates "u1" (Sample.world [])) /\
  fst (retrieveRelevantForms "u1" Sample.prompt (-1) (Sample.world [])) =
  Resolved
    (filter (relevant (generateEmbedding Sample.prompt))
       (firstn (List.length (candidates "u1" (Sample.world [])) - Z.to_nat (- -1))
          (ranked (generateEmbedding Sample.prompt)
             (candidates "u1" (Sample.world []))))).
Proof.
  assert (scoresAreNumbers (generateEmbedding Sample.prompt)
            (candidates "u1" (Sample.world []))) as Hn
    by (unfold scoresAreNumbers, isNumber; vm_compute; repeat constructor).
  split; [lia|]. split; [reflexivity|]. split; [exact Hn|].
  apply (proj2 (nonpositive_k "u1" Sample.prompt (-1) (Sample.world [])
                  ltac:(lia) eq_refl)).
  - lia.
  - exact Hn.
Defined.

(** C3 fails as stated: on the primary path, with scores that are numbers,
    [k = -1] brings three records back. *)
Lemma nonpositive_k_counterexample :
  (-1 <= 0)%Z /\
  nextResolves (Sample.world []) = true /\
  scoresAreNumbers (generateEmbedding Sample.prompt)
    (candidates "u1" (Sample.world [])) /\
  fst (retrieveRelevantForms "u1" Sample.prompt (-1) (Sample.world [])) =
  Resolved [Sample.job; Sample.job2; Sample.intern].
Proof.
  split; [lia|]. split; [reflexivity|]. split.
  - unfold scoresAreNumbers, isNumber. vm_compute. repeat constructor.
  - vm_compute. reflexivity.
Qed.

(** C4, as the code has it: the comparator looks at the similarity only, so
    records of equal similarity stay in the order in which the store returned
    them (the sort is stable): among the records of one score the result holds
    an initial part of the candidates of that score, in their order.  The
    result is a function of the collection, the owner, the prompt and [k]. *)
Theorem ties_keep_store_order (owner prompt : string) (k : Z) (w : World) :
  (0 <= k)%Z ->
  nextResolves w = true ->
  scoresAreNumbers (generateEmbedding prompt) (candidates owner w) ->
  exists result,
    fst (retrieveRelevantForms owner prompt k w) = Resolved result /\
    (forall s : float, exists rest,
        filter (fun f => (score (generateEmbedding prompt) f =? s)%float)
          (candidates owner w) =
        filter (fun f => (score (generateEmbedding prompt) f =? s)%float) result
        ++ rest) /\
    (forall w' : World,
        collection w' = collection w -> nextResolves w' = true ->
        fst (retrieveRelevantForms owner prompt k w') = Resolved result).
Proof.
  intros Hk Hr Hn. set (pe := generateEmbedding prompt) in *.
  exists (rank pe (candidates owner w) k).
  split; [apply retrieve_primary; exact Hr|]. split.
  - intros s. rewrite (rank_top pe (candidates owner w) k Hk Hn).
    set (same := fun f => (score pe f =? s)%float).
    destruct (filter_firstn_prefix same (Z.to_nat k)
                (filter (relevant pe) (ranked pe (candidates owner w))))
      as [rest Hrest].
    rewrite filter_comm in Hrest. unfold same in Hrest at 1.
    rewrite (ranked_stable pe s (candidates owner w) Hn) in Hrest.
    fold same in Hrest.
    destruct (filter_all_or_none (relevant pe) same (candidates owner w))
      as [Hall|Hnone].
    + intros x y. apply relevant_of_score.
    + rewrite Hall in Hrest. exists rest. exact Hrest.
    + rewrite Hnone in Hrest. symmetry in Hrest.
      apply app_eq_nil in Hrest as [-> _].
      exists (filter same (candidates owner w)). reflexivity.
  - intros w' Hc Hr'. rewrite (retrieve_primary owner prompt k w' Hr').
    unfold candidates. rewrite Hc. reflexivity.
Qed.

Lemma ties_keep_store_order_witness :
  (0 <= 2)%Z /\
  nextResolves (Sample.world []) = true /\
  exists result,
    fst (retrieveRelevantForms "u1" Sample.prompt 2 (Sample.world [])) =
    Resolved result /\
    (forall s : float, exists rest,
        filter (fun f => (score (generateEmbedding Sample.prompt) f =? s)%float)
          (candidates "u1" (Sample.world [])) =
        filter (fun f => (score (generateEmbedding Sample.prompt) f =? s)%float)
          result ++ rest) /\
    (forall w' : World,
        collection w' = collection (Sample.world []) -> nextResolves w' = true ->
        fst (retrieveRelevantForms "u1" Sample.prompt 2 w') = Resolved result).
Proof.
  split; [lia|]. split; [reflexivity|].
  apply (ties_keep_store_order "u1" Sample.prompt 2 (Sample.world [])).
  - lia.
  - reflexivity.
  - unfold scoresAreNumbers, isNumber. vm_compute. repeat constructor.
Defined.

(** C4 fails as stated: the two records made from the same text have the same
    similarity, and the older one comes first, as in the store. *)
Lemma ties_counterexample :
  fst (retrieveRelevantForms "u1" Sample.prompt 2 (Sample.world [])) =
  Resolved [Sample.job; Sample.job2] /\
  score (generateEmbedding Sample.prompt) Sample.job =
  score (generateEmbedding Sample.prompt) Sample.job2 /\
  (createdAt Sample.job < createdAt Sample.job2)%Z.
Proof. repeat split; vm_compute; reflexivity. Qed.

(** ** The retriever: owner, vectors and the fallback *)

Lemma exec_value (query : list IForm -> list IForm) (w w' : World)
  (result : list IForm) :
  Mongo.exec query w = (Resolved result, w') ->
  result = query (collection w) /\ w' = afterQuery w.
Proof.
  unfold Mongo.exec, afterQuery, Mongo.exec.
  destruct (faults w) as [|[|] later]; intros E; inversion E; auto.
Qed.

Lemma recent_owned (owner : string) (k : Z) (docs : list IForm) :
  Forall (fun f => userId f = owner) (recent owner k docs).
Proof.
  apply Forall_forall. intros f Hin. unfold recent in Hin.
  apply limit_incl in Hin.
  apply (Permutation_in f (Permutation_sym (sortCreatedAtDesc_perm _))) in Hin.
  apply filter_In in Hin as [_ Ho]. apply String.eqb_eq. exact Ho.
Qed.

Lemma recent_sorted (owner : string) (k : Z) (docs : list IForm) :
  StronglySorted byCreatedAtDesc (recent owner k docs).
Proof.
  unfold recent, Mongo.limit.
  destruct (k =? 0)%Z; [|apply StronglySorted_firstn];
    apply sortCreatedAtDesc_sorted.
Qed.

(** C6: whatever the path, the records returned for an owner are records of
    that owner, also when another owner holds candidates of higher
    similarity. *)
Theorem owner_scoping (owner prompt : string) (k : Z) (w w' : World)
  (result : list IForm) :
  retrieveRelevantForms owner prompt k w = (Resolved result, w') ->
  Forall (fun f => userId f = owner) result.
Proof.
  intros E. destruct (nextResolves w) eqn:Hr.
  - pose proof (retrieve_primary owner prompt k w Hr) as Hp.
    rewrite E in Hp. cbn [fst] in Hp. injection Hp as ->.
    apply Forall_forall. intros f Hin. apply rank_incl in Hin.
    pose proof (candidates_owned owner w) as Ho. rewrite Forall_forall in Ho.
    apply Ho. exact Hin.
  - rewrite (retrieve_fallback owner prompt k w Hr) in E.
    apply exec_value in E as [-> _]. apply recent_owned.
Qed.

Lemma owner_scoping_witness :
  retrieveRelevantForms "u1" Sample.prompt 5 (Sample.world []) =
  (Resolved [Sample.job; Sample.job2; Sample.intern],
   tick 4 (Sample.world [])) /\
  score (generateEmbedding Sample.prompt) Sample.other = 1%float /\
  Forall (fun f => userId f = "u1"%string)
    [Sample.job; Sample.job2; Sample.intern].
Proof.
  assert (retrieveRelevantForms "u1" Sample.prompt 5 (Sample.world []) =
          (Resolved [Sample.job; Sample.job2; Sample.intern],
           tick 4 (Sample.world []))) as E by (vm_compute; reflexivity).
  split; [exact E|]. split; [vm_compute; reflexivity|].
  exact (owner_scoping "u1" Sample.prompt 5 (Sample.world []) _ _ E).
Defined.

(** C5, as the code has it: on the primary path every candidate, and so every
    record returned, has an embedding; the fallback path asks for the most
    recent records of the owner, with or without an embedding. *)
Theorem primary_path_vectors (owner prompt : string) (k : Z) (w : World) :
  nextResolves w = true ->
  Forall (fun f => embedding f <> None) (candidates owner w) /\
  exists result,
    fst (retrieveRelevantForms owner prompt k w) = Resolved result /\
    Forall (fun f => embedding f <> None) result.
Proof.
  intros Hr.
  assert (Forall (fun f => embedding f <> None) (candidates owner w)) as Hc.
  { eapply Forall_impl; [|apply candidates_owned]. intros f [_ H]. exact H. }
  split; [exact Hc|].
  exists (rank (generateEmbedding prompt) (candidates owner w) k).
  split; [apply retrieve_primary; exact Hr|].
  apply Forall_forall. intros f Hin. apply rank_incl in Hin.
  rewrite Forall_forall in Hc. apply Hc. exact Hin.
Qed.

Lemma primary_path_vectors_witness :
  nextResolves (Sample.world []) = true /\
  Forall (fun f => embedding f <> None) (candidates "u1" (Sample.world [])) /\
  exists result,
    fst (retrieveRelevantForms "u1" Sample.prompt 5 (Sample.world [])) =
    Resolved result /\
    Forall (fun f => embedding f <> None) result.
Proof.
  split; [reflexivity|].
  apply (primary_path_vectors "u1" Sample.prompt 5 (Sample.world [])).
  reflexivity.
Defined.

(** C5 fails as stated on the fallback path: the record without an embedding
    is the most recent one of its owner, and it is returned first. *)
Lemma fallback_vectors_counterexample :
  fst (retrieveRelevantForms "u1" Sample.prompt 2 (Sample.world [true])) =
  Resolved [Sample.blank; Sample.job2] /\
  embedding Sample.blank = None.
Proof. split; vm_compute; reflexivity. Qed.

(** C2, as the code has it.  When the candidate fetch fails and the query of
    the fallback resolves, the call resolves, for [k >= 1], with the [k] most
    recent records of the owner by descending [createdAt], and the error line
    on the console marks the fallback.  When the fetch resolves and no
    candidate is relevant, the result is empty and nothing is written. *)
Theorem fallback_distinct (owner prompt : string) (k : Z) (w : World) :
  (nextResolves w = false -> nextResolves (afterQuery w) = true ->
   (1 <= k)%Z ->
   exists result w',
     retrieveRelevantForms owner prompt k w = (Resolved result, w') /\
     result =
       firstn (Z.to_nat k)
         (Mongo.sortCreatedAtDesc
            (Mongo.find (Mongo.ownedBy owner) (collection w))) /\
     (Z.of_nat (List.length result) <= k)%Z /\
     StronglySorted byCreatedAtDesc result /\
     Forall (fun f => userId f = owner) result /\
     fallbackFlag w w' = true) /\
  (nextResolves w = true ->
   Forall (fun f => relevant (generateEmbedding prompt) f = false)
     (candidates owner w) ->
   fst (retrieveRelevantForms owner prompt k w) = Resolved [] /\
   fallbackFlag w (snd (retrieveRelevantForms owner prompt k w)) = false).
Proof.
  split.
  - intros Hr Hr2 Hk. rewrite (retrieve_fallback owner prompt k w Hr).
    set (w2 := consoleError ERROR_LINE (afterQuery w)).
    assert (nextResolves w2 = true) as Hw2 by exact Hr2.
    rewrite (exec_resolves (recent owner k) w2 Hw2).
    exists (recent owner k (collection w2)), (afterQuery w2).
    assert (collection w2 = collection w) as Ec
      by (unfold w2; cbn [consoleError collection]; apply afterQuery_collection).
    rewrite Ec. split; [reflexivity|]. split; [|split; [|split; [|split]]].
    + unfold recent, Mongo.limit. destruct (Z.eqb_spec k 0); [lia|].
      f_equal. lia.
    + apply limit_length. lia.
    + apply recent_sorted.
    + apply recent_owned.
    + unfold fallbackFlag. rewrite afterQuery_console.
      unfold w2. cbn [consoleError console].
      rewrite afterQuery_console, length_app. cbn [List.length].
      apply negb_true_iff, Nat.eqb_neq. lia.
  - intros Hr Hn. rewrite (retrieve_primary owner prompt k w Hr). split.
    + rewrite rank_as_filter. f_equal. apply filter_none.
      unfold JS.slice0.
      assert (Forall (fun f => relevant (generateEmbedding prompt) f = false)
                (ranked (generateEmbedding prompt) (candidates owner w))) as H
        by (apply (Permutation_Forall (ranked_perm _ _)); exact Hn).
      destruct (k <? 0)%Z; apply Forall_firstn; exact H.
    + unfold fallbackFlag.
      destruct (retrieve_primary_world owner prompt k w Hr) as [-> _].
      rewrite Nat.eqb_refl. reflexivity.
Qed.

Lemma fallback_distinct_witness :
  (exists result w',
     retrieveRelevantForms "u1" Sample.prompt 2 (Sample.world [true]) =
     (Resolved result, w') /\
     result =
       firstn (Z.to_nat 2)
         (Mongo.sortCreatedAtDesc
            (Mongo.find (Mongo.ownedBy "u1")
               (collection (Sample.world [true])))) /\
     (Z.of_nat (List.length result) <= 2)%Z /\
     StronglySorted byCreatedAtDesc result /\
     Forall (fun f => userId f = "u1"%string) result /\
     fallbackFlag (Sample.world [true]) w' = true) /\
  (fst (retrieveRelevantForms "u2" "customer survey" 2 (Sample.world [])) =
   Resolved [] /\
   fallbackFlag (Sample.world [])
     (snd (retrieveRelevantForms "u2" "customer survey" 2 (Sample.world []))) =
   false).
Proof.
  split.
  - apply (fallback_distinct "u1" Sample.prompt 2 (Sample.world [true]));
      [reflexivity|reflexivity|lia].
  - apply (fallback_distinct "u2" "customer survey" 2 (Sample.world []));
      [reflexivity|].
    vm_compute. repeat constructor.
Defined.

(** C2 fails as stated: when the query of the fallback fails too, the failure
    reaches the caller; and with [k = 0] the fallback returns every record of
    the owner, a limit of 0 being no limit. *)
Lemma fallback_counterexample :
  fst (retrieveRelevantForms "u1" Sample.prompt 2 (Sample.world [true; true])) =
  Rejected "MongoNetworkError" /\
  fst (retrieveRelevantForms "u1" Sample.prompt 0 (Sample.world [true])) =
  Resolved [Sample.blank; Sample.job2; Sample.intern; Sample.survey; Sample.job].
Proof. split; vm_compute; reflexivity. Qed.

(** ** The scorer, for any arithmetic *)

Section ScorerFacts.
Context {T : Type} `{Number T}.
Local Open Scope num_scope.

(** On vectors of one length the loop leaves the dot product and the two sums
    of squares. *)
Lemma cosineLoop_sums (a b : list T) (d nA nB : T) :
  List.length a = List.length b ->
  cosineLoop a b d nA nB =
  (fold_left (fun acc xy => acc + fst xy * snd xy) (combine a b) d,
   fold_left (fun sum val => sum + val * val) a nA,
   fold_left (fun sum val => sum + val * val) b nB).
Proof.
  revert b d nA nB. induction a as [|x a IH]; intros [|y b] d nA nB E;
    try discriminate; [reflexivity|].
  cbn [cosineLoop combine fold_left fst snd]. apply IH. injection E as E. exact E.
Qed.

Lemma cosineSimilarity_mismatch (a b : list T) :
  List.length a <> List.length b -> cosineSimilarity a b = zero.
Proof.
  intros E. unfold cosineSimilarity.
  apply Nat.eqb_neq in E. rewrite E. reflexivity.
Qed.

Lemma cosineSimilarity_sums (a b : list T) :
  List.length a = List.length b ->
  cosineSimilarity a b =
  if (sumSquares a =? zero) || (sumSquares b =? zero) then zero
  else fold_left (fun acc xy => acc + fst xy * snd xy) (combine a b) zero /
       (sqrt (sumSquares a) * sqrt (sumSquares b)).
Proof.
  intros E. unfold cosineSimilarity.
  rewrite (proj2 (Nat.eqb_eq _ _) E). cbn [negb].
  rewrite (cosineLoop_sums a b zero zero zero E). reflexivity.
Qed.

(** With a commutative product the two roles can be exchanged. *)
Lemma cosineLoop_swap (mulC : forall x y : T, x * y = y * x)
  (a b : list T) (d nA nB : T) :
  cosineLoop b a d nB nA =
  let '(d', nA', nB') := cosineLoop a b d nA nB in (d', nB', nA').
Proof.
  revert b d nA nB. induction a as [|x a IH]; intros [|y b] d nA nB;
    try reflexivity.
  cbn [cosineLoop]. rewrite (mulC y x). apply IH.
Qed.

Lemma cosineSimilarity_swap (mulC : forall x y : T, x * y = y * x)
  (a b : list T) :
  cosineSimilarity a b = cosineSimilarity b a.
Proof.
  unfold cosineSimilarity. rewrite (Nat.eqb_sym (List.length b)).
  destruct (List.length a =? List.length b)%nat; [|reflexivity]. cbn [negb].
  rewrite (cosineLoop_swap mulC a b).
  destruct (cosineLoop a b zero zero zero) as [[d nA] nB].
  rewrite (orb_comm (nB =? zero)), (mulC (sqrt nB)). reflexivity.
Qed.

(** The vectorizer reads its text through [toLowerCase]. *)
Lemma simpleHashEmbedding_lower (t t' : string) :
  JS.toLowerCase t = JS.toLowerCase t' ->
  simpleHashEmbedding (T := T) t = simpleHashEmbedding t'.
Proof. intros E. unfold simpleHashEmbedding. rewrite E. reflexivity. Qed.

End ScorerFacts.

(** ** Lower case *)

Lemma lowerChar_idempotent (c : ascii) :
  JS.lowerChar (JS.lowerChar c) = JS.lowerChar c.
Proof.
  destruct c as [[|] [|] [|] [|] [|] [|] [|] [|]]; vm_compute; reflexivity.
Qed.

Lemma toLowerCase_idempotent (t : string) :
  JS.toLowerCase (JS.toLowerCase t) = JS.toLowerCase t.
Proof.
  induction t as [|c t IH]; [reflexivity|]. cbn [JS.toLowerCase].
  rewrite lowerChar_idempotent, IH. reflexivity.
Qed.

(** ** Texts of white space *)

Lemma lowerChar_whitespace (c : ascii) :
  JS.isWhiteSpace c = true -> JS.lowerChar c = c.
Proof.
  destruct c as [[|] [|] [|] [|] [|] [|] [|] [|]]; vm_compute;
    intros E; try reflexivity; discriminate E.
Qed.

Lemma toLowerCase_whitespace (t : string) :
  allWhiteSpace t = true -> JS.toLowerCase t = t.
Proof.
  induction t as [|c t IH]; [reflexivity|]. cbn [allWhiteSpace JS.toLowerCase].
  intros E. apply andb_prop in E as [Ec Et].
  rewrite (lowerChar_whitespace c Ec), (IH Et). reflexivity.
Qed.

Lemma splitFrom_separator (cur : string) (t : string) :
  allWhiteSpace t = true -> JS.splitFrom cur true t = [cur].
Proof.
  induction t as [|c t IH]; [reflexivity|]. cbn [allWhiteSpace JS.splitFrom].
  intros E. apply andb_prop in E as [Ec Et]. rewrite Ec. exact (IH Et).
Qed.

(** A text of white space splits into one empty token when it is empty and
    into two when it is not. *)
Lemma split_whitespace (t : string) :
  allWhiteSpace t = true ->
  JS.splitWhitespace t = if String.eqb t "" then [""%string] else [""%string; ""%string].
Proof.
  destruct t as [|c t]; [reflexivity|]. cbn [allWhiteSpace].
  intros E. apply andb_prop in E as [Ec Et].
  unfold JS.splitWhitespace. cbn [JS.splitFrom String.eqb]. rewrite Ec.
  rewrite (splitFrom_separator _ t Et). reflexivity.
Qed.

Lemma whitespace_vector (t : string) :
  allWhiteSpace t = true ->
  simpleHashEmbedding (T := float) t = 1%float :: repeat 0%float 127.
Proof.
  intros E. unfold simpleHashEmbedding.
  rewrite (toLowerCase_whitespace t E), (split_whitespace t E).
  destruct (String.eqb t ""); vm_compute; reflexivity.
Qed.

(** ** The scorer on binary64 *)

Section FloatScorer.
Local Open Scope float_scope.
Import FloatFacts.

Lemma sumSquares_zeros (v : list float) :
  Forall (fun x => (x =? 0) = true) v -> sumSquares v = 0.
Proof.
  unfold sumSquares. cbn [zero float_Number].
  induction 1 as [|x v Hx _ IH]; [reflexivity|]. cbn [fold_left].
  destruct (eqb_zero x Hx) as [-> | ->]; exact IH.
Qed.

End FloatScorer.

(** C8: the scorer is a total function of two vectors of numbers.  It is
    exactly 0 when the lengths differ, exactly 0 when the sum of squares of
    either vector is zero, and so when either vector holds zeros only. *)
Theorem similarity_total (a b : list float) :
  (List.length a <> List.length b -> cosineSimilarity a b = 0%float) /\
  (List.length a = List.length b ->
   (sumSquares a =? 0)%float = true \/ (sumSquares b =? 0)%float = true ->
   cosineSimilarity a b = 0%float) /\
  (Forall (fun x => (x =? 0)%float = true) a \/
   Forall (fun x => (x =? 0)%float = true) b ->
   cosineSimilarity a b = 0%float).
Proof.
  assert (Hsum : List.length a = List.length b ->
                 (sumSquares a =? 0)%float = true \/
                 (sumSquares b =? 0)%float = true ->
                 cosineSimilarity a b = 0%float).
  { intros E Hz. rewrite (cosineSimilarity_sums a b E). cbn [eqb zero float_Number].
    destruct Hz as [-> | ->]; [reflexivity|]. rewrite orb_true_r. reflexivity. }
  split; [exact (cosineSimilarity_mismatch a b)|]. split; [exact Hsum|].
  intros Hz. destruct (Nat.eq_dec (List.length a) (List.length b)) as [E|E].
  - apply Hsum; [exact E|].
    destruct Hz as [Hz|Hz]; [left|right]; rewrite (sumSquares_zeros _ Hz);
      reflexivity.
  - exact (cosineSimilarity_mismatch a b E).
Qed.

Lemma similarity_total_witness :
  cosineSimilarity [1; 2]%float [1]%float = 0%float /\
  cosineSimilarity [0; -0]%float [3; 4]%float = 0%float.
Proof.
  split.
  - apply (proj1 (similarity_total [1; 2]%float [1]%float)). cbn. lia.
  - apply (proj2 (proj2 (similarity_total [0; -0]%float [3; 4]%float))). left.
    repeat constructor.
Defined.

(** ** The scorer in exact arithmetic *)

Section RealScorer.
Local Open Scope R_scope.

Lemma Rltb_true (x y : R) : Rltb x y = true <-> x < y.
Proof. unfold Rltb. destruct (Rlt_dec x y); split; intros; auto; discriminate || lra. Qed.

Lemma Reqb_true (x y : R) : Reqb x y = true <-> x = y.
Proof. unfold Reqb. destruct (Req_dec_T x y); split; intros; auto; discriminate || lra. Qed.

Lemma Reqb_false (x y : R) : Reqb x y = false <-> x <> y.
Proof. unfold Reqb. destruct (Req_dec_T x y); split; intros; auto; discriminate || lra. Qed.

Lemma fold_sumsq (v : list R) (acc : R) :
  fold_left (fun sum val => sum + val * val) v acc = acc + Rsumsq v.
Proof.
  revert acc. induction v as [|x v IH]; intros acc; cbn [fold_left Rsumsq].
  - lra.
  - rewrite IH. lra.
Qed.

Lemma sumSquares_R (v : list R) : sumSquares v = Rsumsq v.
Proof.
  unfold sumSquares. cbn [add mul zero R_Number]. rewrite fold_sumsq. lra.
Qed.

Lemma fold_dot (a b : list R) (acc : R) :
  fold_left (fun acc xy => acc + fst xy * snd xy) (combine a b) acc =
  acc + Rdot a b.
Proof.
  revert b acc. induction a as [|x a IH]; intros [|y b] acc;
    cbn [combine fold_left Rdot fst snd]; try lra.
  rewrite IH. lra.
Qed.

Lemma Rsumsq_nonneg (v : list R) : 0 <= Rsumsq v.
Proof. induction v as [|x v IH]; cbn [Rsumsq]; nra. Qed.

Lemma Rsumsq_pos (v : list R) : Exists (fun x => x <> 0) v -> 0 < Rsumsq v.
Proof.
  induction 1 as [x v Hx|x v _ IH]; cbn [Rsumsq];
    pose proof (Rsumsq_nonneg v); nra.
Qed.

Lemma Rdot_self (v : list R) : Rdot v v = Rsumsq v.
Proof. induction v as [|x v IH]; cbn [Rdot Rsumsq]; [reflexivity|]. rewrite IH. reflexivity. Qed.

Lemma cosineSimilarity_R (a b : list R) :
  List.length a = List.length b ->
  cosineSimilarity a b =
  if Reqb (Rsumsq a) 0 || Reqb (Rsumsq b) 0 then 0
  else Rdot a b / (R_sqrt.sqrt (Rsumsq a) * R_sqrt.sqrt (Rsumsq b)).
Proof.
  intros E. rewrite (cosineSimilarity_sums a b E), !sumSquares_R.
  cbn [zero eqb div mul add sqrt R_Number]. rewrite fold_dot, Rplus_0_l.
  reflexivity.
Qed.

Lemma cosine_self (a : list R) :
  Exists (fun x => x <> 0) a -> cosineSimilarity a a = 1.
Proof.
  intros Ha. rewrite (cosineSimilarity_R a a eq_refl), Rdot_self.
  pose proof (Rsumsq_pos a Ha) as HA.
  assert (Reqb (Rsumsq a) 0 = false) as -> by (apply Reqb_false; lra).
  cbn [orb]. rewrite sqrt_sqrt by lra. field. lra.
Qed.

End RealScorer.

(** ** The vectorizer in exact arithmetic *)

Section RealVectorizer.
Local Open Scope R_scope.

Lemma splitFrom_nonempty (cur : string) (prev_ws : bool) (s : string) :
  JS.splitFrom cur prev_ws s <> [].
Proof.
  revert cur prev_ws. induction s as [|c s IH]; intros cur prev_ws;
    cbn [JS.splitFrom]; [discriminate|].
  destruct (JS.isWhiteSpace c); [destruct prev_ws|]; auto. discriminate.
Qed.

Lemma bucket_lt (word : string) : (bucket word < DIM)%nat.
Proof.
  unfold bucket, DIM.
  pose proof (Z.mod_pos_bound (Z.abs (hashCode word)) (Z.of_nat 128)) as Hb.
  lia.
Qed.

Lemma addAt_length (idx : nat) (x : R) (v : list R) :
  List.length (addAt idx x v) = List.length v.
Proof.
  revert idx. induction v as [|y v IH]; intros [|idx]; cbn [addAt List.length];
    auto.
Qed.

Lemma addAt_sum (idx : nat) (x : R) (v : list R) :
  (idx < List.length v)%nat -> Rsum (addAt idx x v) = Rsum v + x.
Proof.
  revert idx. induction v as [|y v IH]; intros [|idx] Hlt;
    cbn [addAt Rsum List.length] in *; try lia.
  - cbn [add R_Number]. lra.
  - rewrite IH by lia. lra.
Qed.

Lemma addAt_nonneg (idx : nat) (x : R) (v : list R) :
  0 <= x -> Forall (fun y => 0 <= y) v -> Forall (fun y => 0 <= y) (addAt idx x v).
Proof.
  intros Hx Hv. revert idx. induction Hv as [|y v Hy Hv IH]; intros [|idx];
    cbn [addAt]; constructor; auto.
  cbn [add R_Number]. lra.
Qed.

Lemma weight_pos (index : Z) : (0 <= index)%Z -> 0 < 1 / IZR (index + 1).
Proof.
  intros Hi. apply Rdiv_lt_0_compat; [lra|]. apply IZR_lt. lia.
Qed.

Lemma accumulate_R (words : list string) (index : Z) (v : list R) :
  (0 <= index)%Z -> List.length v = DIM -> Forall (fun y => 0 <= y) v ->
  Forall (fun y => 0 <= y) (accumulate words index v) /\
  Rsum v <= Rsum (accumulate words index v) /\
  (words <> [] -> Rsum v < Rsum (accumulate words index v)).
Proof.
  revert index v. induction words as [|word words IH]; intros index v Hi Hl Hv.
  - cbn [accumulate]. repeat split; [exact Hv|lra|congruence].
  - cbn [accumulate]. cbn [ofZ div R_Number].
    pose proof (weight_pos index Hi) as Hw.
    pose proof (bucket_lt word) as Hb.
    destruct (IH (index + 1)%Z (addAt (bucket word) (1 / IZR (index + 1)) v))
      as (H1 & H2 & _).
    + lia.
    + rewrite addAt_length. exact Hl.
    + apply addAt_nonneg; [lra|exact Hv].
    + rewrite addAt_sum in H2 by (rewrite Hl; exact Hb).
      repeat split; [exact H1|lra|intros _; lra].
Qed.

Lemma Rsumsq_pos_of_sum (v : list R) :
  Forall (fun y => 0 <= y) v -> 0 < Rsum v -> 0 < Rsumsq v.
Proof.
  induction 1 as [|x v Hx Hv IH]; cbn [Rsum Rsumsq]; [lra|]. intros Hs.
  pose proof (Rsumsq_nonneg v) as Hn.
  destruct (Rle_lt_or_eq_dec 0 x Hx) as [P|Z]; [nra|].
  subst x. assert (0 < Rsumsq v) by (apply IH; lra). lra.
Qed.

Lemma Rsumsq_scaled (v : list R) (m : R) :
  m <> 0 -> Rsumsq (map (fun val => val / m) v) = Rsumsq v / (m * m).
Proof.
  intros Hm. induction v as [|x v IH]; cbn [map Rsumsq].
  - field. exact Hm.
  - rewrite IH. field. exact Hm.
Qed.

Lemma Rsum_repeat_zero (n : nat) : Rsum (repeat 0 n) = 0.
Proof. induction n as [|n IH]; cbn [repeat Rsum]; lra. Qed.

(** In exact arithmetic every text gets a vector of norm 1: the split of a
    text is never empty, so the magnitude is never zero. *)
Lemma exact_norm (text : string) :
  Rsumsq (simpleHashEmbedding text) = 1.
Proof.
  unfold simpleHashEmbedding.
  set (words := JS.splitWhitespace (JS.toLowerCase text)).
  destruct (accumulate_R words 0 (repeat zero DIM)) as (Hn & _ & Hs).
  - lia.
  - apply repeat_length.
  - apply Forall_forall. intros y Hy. apply repeat_spec in Hy. subst y.
    cbn [zero R_Number]. lra.
  - specialize (Hs (splitFrom_nonempty _ _ _)).
    set (embedding := accumulate words 0 (repeat zero DIM)) in *.
    cbn [zero R_Number] in Hs. rewrite Rsum_repeat_zero in Hs.
    pose proof (Rsumsq_pos_of_sum embedding Hn Hs) as Hpos.
    rewrite sumSquares_R. cbn [sqrt ltb zero div R_Number].
    assert (0 < R_sqrt.sqrt (Rsumsq embedding)) as Hm by (apply sqrt_lt_R0; exact Hpos).
    rewrite (proj2 (Rltb_true _ _) Hm).
    rewrite Rsumsq_scaled by lra. rewrite sqrt_sqrt by lra. field. lra.
Qed.

Lemma Rsumsq_nonzero (v : list R) : Rsumsq v <> 0 -> Exists (fun x => x <> 0) v.
Proof.
  induction v as [|x v IH]; cbn [Rsumsq]; [congruence|]. intros Hs.
  destruct (Req_dec x 0) as [Z|NZ]; [|left; exact NZ].
  right. apply IH. subst x. lra.
Qed.

End RealVectorizer.

(** ** Symmetry and letter case *)

(** C9, as the code has it: the scorer is symmetric on binary64 values;
    the two calls return the same number, or NaN both. *)
Theorem similarity_symmetric (a b : list float) :
  cosineSimilarity a b = cosineSimilarity b a.
Proof. apply cosineSimilarity_swap. exact FloatFacts.mul_comm. Qed.

(** C9 fails as stated on binary64 values.  The similarity of (1, 1, 1) to
    itself is the number next above 1, for the square of the rounded root of
    3 is less than 3; the similarity of (2^-600, 0) to itself is 0, for the
    square of 2^-600 is rounded to 0; and the similarity of (2^600, 1) to
    itself is NaN, for the square of 2^600 is rounded to infinity. *)
Lemma similarity_bounds_counterexample :
  cosineSimilarity [1; 1; 1]%float [1; 1; 1]%float = 0x1.0000000000001p+0%float /\
  (1 <? cosineSimilarity [1; 1; 1]%float [1; 1; 1]%float)%float = true /\
  (cosineSimilarity [1; 1; 1]%float [1; 1; 1]%float =? 1)%float = false /\
  cosineSimilarity [0x1p-600; 0]%float [0x1p-600; 0]%float = 0%float /\
  PrimFloat.is_nan (cosineSimilarity [0x1p+600; 1]%float [0x1p+600; 1]%float) = true /\
  (cosineSimilarity [0x1p+600; 1]%float [0x1p+600; 1]%float
   <=? 1)%float = false.
Proof. repeat split; vm_compute; reflexivity. Qed.

(** C10, as the code has it.  The vectorizer sees its text in lower case only:
    a text and its lower-case form, and any two texts of one lower-case form,
    get the same vector; the similarity of the two vectors is 1 in exact
    arithmetic, and 1 up to rounding on binary64 values. *)
Theorem case_insensitive :
  (forall t : string,
      simpleHashEmbedding (T := float) t = simpleHashEmbedding (JS.toLowerCase t)) /\
  (forall t t' : string,
      JS.toLowerCase t = JS.toLowerCase t' ->
      simpleHashEmbedding (T := float) t = simpleHashEmbedding t') /\
  (forall t t' : string,
      JS.toLowerCase t = JS.toLowerCase t' ->
      cosineSimilarity (T := R) (simpleHashEmbedding t) (simpleHashEmbedding t')
      = 1%R).
Proof.
  split; [|split].
  - intros t. apply simpleHashEmbedding_lower. symmetry.
    apply toLowerCase_idempotent.
  - intros t t'. apply simpleHashEmbedding_lower.
  - intros t t' E. rewrite (simpleHashEmbedding_lower (T := R) t t' E).
    apply cosine_self. apply Rsumsq_nonzero. rewrite exact_norm. lra.
Qed.

Lemma case_insensitive_witness :
  simpleHashEmbedding (T := float) "Hello World" =
  simpleHashEmbedding "hello world" /\
  cosineSimilarity (T := R) (simpleHashEmbedding "Hello World")
    (simpleHashEmbedding "hello world") = 1%R.
Proof.
  destruct case_insensitive as (_ & Hv & Hs).
  split; [apply Hv|apply Hs]; reflexivity.
Defined.

(** C10 fails as stated on binary64 values: the two texts get the same vector,
    and the similarity of that vector to itself is the number next above 1. *)
Lemma case_similarity_counterexample :
  simpleHashEmbedding (T := float) "Hello World" =
  simpleHashEmbedding "hello world" /\
  cosineSimilarity (T := float) (simpleHashEmbedding "Hello World")
    (simpleHashEmbedding "hello world") = 0x1.0000000000001p+0%float /\
  (cosineSimilarity (T := float) (simpleHashEmbedding "Hello World")
     (simpleHashEmbedding "hello world") =? 1)%float = false.
Proof. repeat split; vm_compute; reflexivity. Qed.

(** C7 at the empty text and at the texts of white space: the split leaves
    one or two empty tokens, which fall into bucket 0, so the vector is the
    first unit vector and not the zero vector.  In exact arithmetic the
    vector of every text has norm 1. *)
Theorem empty_text_vector :
  simpleHashEmbedding (T := float) "" = 1%float :: repeat 0%float 127 /\
  simpleHashEmbedding (T := float) "" <> repeat 0%float 128 /\
  (forall text : string,
      allWhiteSpace text = true ->
      simpleHashEmbedding (T := float) text = 1%float :: repeat 0%float 127) /\
  (forall text : string, Rsumsq (simpleHashEmbedding text) = 1%R).
Proof.
  split; [vm_compute; reflexivity|].
  split; [vm_compute; discriminate|].
  split; [exact whitespace_vector|exact exact_norm].
Qed.

Lemma empty_text_vector_witness :
  allWhiteSpace "   " = true /\
  simpleHashEmbedding (T := float) "   " = 1%float :: repeat 0%float 127.
Proof.
  split; [reflexivity|].
  apply (proj1 (proj2 (proj2 empty_text_vector))). reflexivity.
Defined.

(** ** The hash *)

Section Hash.
Local Open Scope Z_scope.

Lemma toInt32_shift (z m : Z) : JS.toInt32 (z + m * 2 ^ 32) = JS.toInt32 z.
Proof.
  unfold JS.toInt32. replace (z + m * 2 ^ 32 + 2 ^ 31) with (z + 2 ^ 31 + m * 2 ^ 32) by ring.
  rewrite Z_mod_plus_full. reflexivity.
Qed.

Lemma toInt32_decompose (z : Z) : exists m, JS.toInt32 z = z + m * 2 ^ 32.
Proof.
  exists (- ((z + 2 ^ 31) / 2 ^ 32)). unfold JS.toInt32.
  pose proof (Z.div_mod (z + 2 ^ 31) (2 ^ 32)) as H. lia.
Qed.

Lemma toInt32_range (z : Z) : - 2 ^ 31 <= JS.toInt32 z < 2 ^ 31.
Proof.
  unfold JS.toInt32. pose proof (Z.mod_pos_bound (z + 2 ^ 31) (2 ^ 32)). lia.
Qed.

Lemma toInt32_id (z : Z) : - 2 ^ 31 <= z < 2 ^ 31 -> JS.toInt32 z = z.
Proof.
  intros H. unfold JS.toInt32. rewrite Z.mod_small; lia.
Qed.

Lemma hashStep_wraps (z : Z) (c : ascii) :
  hashStep (JS.toInt32 z) c = JS.toInt32 (31 * z + JS.charCodeAt c).
Proof.
  unfold hashStep.
  destruct (toInt32_decompose z) as [m ->].
  destruct (toInt32_decompose ((z + m * 2 ^ 32) * 32)) as [m' ->].
  replace ((z + m * 2 ^ 32) * 32 + m' * 2 ^ 32 - (z + m * 2 ^ 32) + JS.charCodeAt c)
    with (31 * z + JS.charCodeAt c + (31 * m + m') * 2 ^ 32) by ring.
  apply toInt32_shift.
Qed.

Lemma hashFrom_wraps (word : string) (z : Z) :
  hashFrom (JS.toInt32 z) word = JS.toInt32 (poly31 z word).
Proof.
  revert z. induction word as [|c word IH]; intros z; cbn [hashFrom poly31].
  - reflexivity.
  - rewrite hashStep_wraps. apply IH.
Qed.

(** X1: the hash of a word is the 31-multiplier polynomial of its code units,
    wrapped to a signed 32-bit integer, and the bucket is an index of the
    embedding. *)
Theorem hash_is_wrapped_polynomial (word : string) :
  hashCode word = JS.toInt32 (poly31 0 word) /\
  - 2 ^ 31 <= hashCode word < 2 ^ 31 /\
  (bucket word < DIM)%nat.
Proof.
  assert (hashCode word = JS.toInt32 (poly31 0 word)) as E.
  { unfold hashCode. rewrite <- hashFrom_wraps. reflexivity. }
  split; [exact E|]. split; [rewrite E; apply toInt32_range|apply bucket_lt].
Qed.

End Hash.

(** ** The dimension *)

Section Dimension.
Context {T : Type} `{Number T}.

Lemma addAt_keeps_length (idx : nat) (x : T) (v : list T) :
  List.length (addAt idx x v) = List.length v.
Proof.
  revert idx. induction v as [|y v IH]; intros [|idx]; cbn [addAt List.length];
    auto.
Qed.

Lemma accumulate_keeps_length (words : list string) (index : Z) (v : list T) :
  List.length (accumulate words index v) = List.length v.
Proof.
  revert index v. induction words as [|word words IH]; intros index v;
    cbn [accumulate]; [reflexivity|].
  rewrite IH. apply addAt_keeps_length.
Qed.

Lemma simpleHashEmbedding_length (text : string) :
  List.length (simpleHashEmbedding (T := T) text) = DIM.
Proof.
  unfold simpleHashEmbedding.
  destruct (ltb zero _); rewrite ?length_map, accumulate_keeps_length;
    apply repeat_length.
Qed.

End Dimension.

(** X2: whatever the arithmetic, the vector of a text has 128 entries. *)
Theorem embedding_dimension (T : Type) (N : Number T) (text : string) :
  List.length (simpleHashEmbedding (T := T) text) = 128%nat /\
  List.length (generateEmbedding (T := T) text) = 128%nat.
Proof. split; apply simpleHashEmbedding_length. Qed.

(** ** White space between words *)

Section Separators.
Local Open Scope string_scope.

Lemma isWhiteSpace_lowerChar (c : ascii) :
  JS.isWhiteSpace (JS.lowerChar c) = JS.isWhiteSpace c.
Proof.
  destruct c as [[|] [|] [|] [|] [|] [|] [|] [|]]; vm_compute; reflexivity.
Qed.

Lemma toLowerCase_app (a b : string) :
  JS.toLowerCase (a ++ b) = JS.toLowerCase a ++ JS.toLowerCase b.
Proof.
  induction a as [|c a IH]; cbn [append JS.toLowerCase]; [reflexivity|].
  rewrite IH. reflexivity.
Qed.

(** One separator character is as good as another. *)
Lemma splitFrom_any_separator (a b cur : string) (prev_ws : bool) (c c' : ascii) :
  JS.isWhiteSpace c = true -> JS.isWhiteSpace c' = true ->
  JS.splitFrom cur prev_ws (a ++ String c b) =
  JS.splitFrom cur prev_ws (a ++ String c' b).
Proof.
  intros Hc Hc'. revert cur prev_ws.
  induction a as [|x a IH]; intros cur prev_ws; cbn [append JS.splitFrom].
  - rewrite Hc, Hc'. reflexivity.
  - destruct (JS.isWhiteSpace x); [destruct prev_ws|]; rewrite ?IH; reflexivity.
Qed.

(** A separator character after another adds nothing. *)
Lemma splitFrom_run (a b cur : string) (prev_ws : bool) (c c' : ascii) :
  JS.isWhiteSpace c = true -> JS.isWhiteSpace c' = true ->
  JS.splitFrom cur prev_ws (a ++ String c (String c' b)) =
  JS.splitFrom cur prev_ws (a ++ String c b).
Proof.
  intros Hc Hc'. revert cur prev_ws.
  induction a as [|x a IH]; intros cur prev_ws; cbn [append JS.splitFrom].
  - rewrite Hc, Hc'. destruct prev_ws; reflexivity.
  - destruct (JS.isWhiteSpace x); [destruct prev_ws|]; rewrite ?IH; reflexivity.
Qed.

End Separators.

(** X3: the vector of a text does not depend on which white-space characters
    separate its words, nor on how many of them stand in a row. *)
Theorem separators_do_not_matter (T : Type) (N : Number T) (a b : string)
  (c c' : ascii) :
  JS.isWhiteSpace c = true -> JS.isWhiteSpace c' = true ->
  simpleHashEmbedding (T := T) (a ++ String c b) =
  simpleHashEmbedding (a ++ String c' b) /\
  simpleHashEmbedding (T := T) (a ++ String c (String c' b)) =
  simpleHashEmbedding (a ++ String c b).
Proof.
  intros Hc Hc'.
  assert (Hl : JS.isWhiteSpace (JS.lowerChar c) = true)
    by (rewrite isWhiteSpace_lowerChar; exact Hc).
  assert (Hl' : JS.isWhiteSpace (JS.lowerChar c') = true)
    by (rewrite isWhiteSpace_lowerChar; exact Hc').
  unfold simpleHashEmbedding, JS.splitWhitespace.
  rewrite !toLowerCase_app. cbn [JS.toLowerCase].
  rewrite (splitFrom_run _ _ _ _ _ _ Hl Hl').
  rewrite (splitFrom_any_separator _ _ _ _ _ _ Hl Hl').
  split; reflexivity.
Qed.

Lemma separators_do_not_matter_witness :
  simpleHashEmbedding (T := float) "job form" =
  simpleHashEmbedding ("job" ++ String "009" "form") /\
  simpleHashEmbedding (T := float) "job  form" =
  simpleHashEmbedding "job form".
Proof.
  exact (separators_do_not_matter float float_Number "job" "form" " " "009"
           eq_refl eq_refl).
Defined.

(** ** Texts of one token *)

Section OneToken.
Local Open Scope string_scope.

Lemma append_char (a b : string) (c : ascii) :
  (a ++ String c "") ++ b = a ++ String c b.
Proof. induction a as [|x a IH]; cbn [append]; [reflexivity|]. rewrite IH. reflexivity. Qed.

Lemma splitFrom_one_token (cur s : string) :
  noWhiteSpace s = true -> JS.splitFrom cur false s = [cur ++ s].
Proof.
  revert cur. induction s as [|c s IH]; intros cur; cbn [noWhiteSpace JS.splitFrom].
  - intros _. f_equal. induction cur as [|x cur IHc]; cbn [append]; congruence.
  - intros E. apply andb_prop in E as [Ec Es]. apply negb_true_iff in Ec.
    rewrite Ec, (IH _ Es), append_char. reflexivity.
Qed.

Lemma noWhiteSpace_lower (s : string) :
  noWhiteSpace (JS.toLowerCase s) = noWhiteSpace s.
Proof.
  induction s as [|c s IH]; cbn [JS.toLowerCase noWhiteSpace]; [reflexivity|].
  rewrite isWhiteSpace_lowerChar, IH. reflexivity.
Qed.

Lemma sameFloats_eq (a b : list float) : sameFloats a b = true -> a = b.
Proof.
  revert b. induction a as [|x a IH]; intros [|y b]; cbn [sameFloats];
    try discriminate; [reflexivity|].
  intros E. apply andb_prop in E as [Exy Eab].
  apply FloatAxioms.Leibniz.eqb_spec in Exy. rewrite Exy, (IH b Eab). reflexivity.
Qed.

Lemma oneTokenVector_unit (i : nat) :
  (i < DIM)%nat -> oneTokenVector i = unitVector i.
Proof.
  intros Hi. apply sameFloats_eq.
  assert (forallb (fun j => sameFloats (oneTokenVector j) (unitVector j))
            (seq 0 DIM) = true) as Hall by (vm_compute; reflexivity).
  rewrite forallb_forall in Hall. apply Hall. apply in_seq. lia.
Qed.

Lemma sumSquares_unit (i : nat) :
  (i < DIM)%nat -> sumSquares (unitVector i) = 1%float.
Proof.
  intros Hi. apply FloatAxioms.Leibniz.eqb_spec.
  assert (forallb
            (fun a => PrimFloat.Leibniz.eqb (sumSquares (unitVector a)) 1%float)
            (seq 0 DIM) = true) as Hall by (vm_compute; reflexivity).
  rewrite forallb_forall in Hall. apply Hall. apply in_seq. lia.
Qed.

(** The dot product of a vector with itself is its sum of squares. *)
Lemma fold_dot_self (v : list float) (acc : float) :
  fold_left (fun acc xy => (acc + fst xy * snd xy)%float) (combine v v) acc =
  fold_left (fun sum val => (sum + val * val)%float) v acc.
Proof.
  revert acc. induction v as [|x v IH]; intros acc; [reflexivity|].
  cbn [combine fold_left fst snd]. apply IH.
Qed.

(** Two unit vectors of different buckets have no common non-zero entry. *)
Lemma fold_dot_units (i j : nat) (positions : list nat) :
  i <> j ->
  fold_left (fun acc xy => (acc + fst xy * snd xy)%float)
    (combine (map (fun p => if (p =? i)%nat then 1%float else 0%float) positions)
             (map (fun p => if (p =? j)%nat then 1%float else 0%float) positions))
    0%float = 0%float.
Proof.
  intros Hij. induction positions as [|p positions IH]; [reflexivity|].
  cbn [map combine fold_left fst snd].
  destruct (Nat.eqb_spec p i) as [Ei|Ei], (Nat.eqb_spec p j) as [Ej|Ej];
    try (exfalso; congruence); exact IH.
Qed.

Lemma unit_similarity (i j : nat) :
  (i < DIM)%nat -> (j < DIM)%nat ->
  cosineSimilarity (unitVector i) (unitVector j) =
  if (i =? j)%nat then 1%float else 0%float.
Proof.
  intros Hi Hj.
  rewrite cosineSimilarity_sums by (unfold unitVector; rewrite !length_map; reflexivity).
  rewrite (sumSquares_unit i Hi), (sumSquares_unit j Hj).
  cbn [eqb zero add mul div sqrt float_Number].
  destruct (Nat.eqb_spec i j) as [->|Hij].
  - rewrite fold_dot_self.
    change (fold_left (fun sum val => (sum + val * val)%float) (unitVector j) 0%float)
      with (sumSquares (unitVector j)).
    rewrite (sumSquares_unit j Hj). vm_compute. reflexivity.
  - unfold unitVector. rewrite (fold_dot_units i j _ Hij). vm_compute. reflexivity.
Qed.

Lemma one_token_embedding (text : string) :
  noWhiteSpace text = true ->
  simpleHashEmbedding (T := float) text =
  unitVector (bucket (JS.toLowerCase text)).
Proof.
  intros E. rewrite <- oneTokenVector_unit by apply bucket_lt.
  unfold simpleHashEmbedding, JS.splitWhitespace.
  rewrite splitFrom_one_token by (rewrite noWhiteSpace_lower; exact E).
  reflexivity.
Qed.

End OneToken.

(** X4: a text without white space is one token, and its vector is the unit
    vector of the bucket of that token.  Two such texts have similarity
    exactly 1 when their tokens share the bucket, be they different words, and
    exactly 0 when they do not. *)
Theorem one_token_texts (text text' : string) :
  noWhiteSpace text = true -> noWhiteSpace text' = true ->
  simpleHashEmbedding (T := float) text =
  unitVector (bucket (JS.toLowerCase text)) /\
  cosineSimilarity (T := float) (simpleHashEmbedding text)
    (simpleHashEmbedding text') =
  if (bucket (JS.toLowerCase text) =? bucket (JS.toLowerCase text'))%nat
  then 1%float else 0%float.
Proof.
  intros E E'. split; [apply one_token_embedding; exact E|].
  rewrite (one_token_embedding text E), (one_token_embedding text' E').
  apply unit_similarity; apply bucket_lt.
Qed.

Lemma one_token_texts_witness :
  noWhiteSpace "feedback" = true /\ noWhiteSpace "patient" = true /\
  bucket "feedback" = bucket "patient" /\
  cosineSimilarity (T := float) (simpleHashEmbedding "feedback")
    (simpleHashEmbedding "patient") = 1%float.
Proof.
  split; [reflexivity|]. split; [reflexivity|]. split; [vm_compute; reflexivity|].
  exact (proj2 (one_token_texts "feedback" "patient" eq_refl eq_refl)).
Defined.

(** ** Vectors of another dimension *)

(** X6: on the primary path every record returned has an embedding of 128
    entries: a stored vector of another length scores 0 and is filtered
    out. *)
Theorem foreign_dimension_is_ignored (owner prompt : string) (k : Z) (w : World) :
  nextResolves w = true ->
  exists result,
    fst (retrieveRelevantForms owner prompt k w) = Resolved result /\
    Forall (fun f => exists e, embedding f = Some e /\ List.length e = 128%nat)
      result.
Proof.
  intros Hr. exists (rank (generateEmbedding prompt) (candidates owner w) k).
  split; [apply retrieve_primary; exact Hr|].
  eapply Forall_impl; [|apply rank_relevant]. cbn beta. intros f Hf.
  unfold relevant, score, scoreForm in Hf. cbn [similarity] in Hf.
  destruct (embedding f) as [e|]; [|discriminate Hf].
  exists e. split; [reflexivity|].
  destruct (Nat.eq_dec (List.length e) 128) as [El|El]; [exact El|].
  rewrite cosineSimilarity_mismatch in Hf; [discriminate Hf|].
  unfold generateEmbedding. rewrite simpleHashEmbedding_length. unfold DIM.
  congruence.
Qed.

Lemma foreign_dimension_is_ignored_witness :
  nextResolves (Sample.world []) = true /\
  exists result,
    fst (retrieveRelevantForms "u1" Sample.prompt 5 (Sample.world [])) =
    Resolved result /\
    Forall (fun f => exists e, embedding f = Some e /\ List.length e = 128%nat)
      result.
Proof.
  split; [reflexivity|].
  apply (foreign_dimension_is_ignored "u1" Sample.prompt 5 (Sample.world [])).
  reflexivity.
Defined.

(** ** More on the retriever *)

Section PartOf.
Context {A : Type}.

Lemma partOf_refl (l : list A) : partOf l l.
Proof. exists []. rewrite app_nil_r. reflexivity. Qed.

Lemma partOf_trans (a b c : list A) : partOf a b -> partOf b c -> partOf a c.
Proof.
  intros [r1 H1] [r2 H2]. exists (r1 ++ r2).
  rewrite app_assoc, H1. exact H2.
Qed.

Lemma partOf_perm (a b : list A) : Permutation a b -> partOf a b.
Proof. intros P. exists []. rewrite app_nil_r. exact P. Qed.

Lemma partOf_firstn (n : nat) (l : list A) : partOf (firstn n l) l.
Proof. exists (skipn n l). rewrite firstn_skipn. reflexivity. Qed.

Lemma partOf_filter (p : A -> bool) (l : list A) : partOf (filter p l) l.
Proof.
  exists (filter (fun x => negb (p x)) l).
  induction l as [|x l IH]; cbn [filter]; [constructor|].
  destruct (p x); cbn [negb app].
  - constructor. exact IH.
  - rewrite <- Permutation_middle. constructor. exact IH.
Qed.

Lemma partOf_map {B : Type} (f : A -> B) (a b : list A) :
  partOf a b -> partOf (map f a) (map f b).
Proof.
  intros [r H]. exists (map f r). rewrite <- map_app. apply Permutation_map. exact H.
Qed.

Lemma partOf_NoDup (a b : list A) : partOf a b -> NoDup b -> NoDup a.
Proof.
  intros [r H] Hb. apply (Permutation_NoDup (Permutation_sym H)) in Hb.
  apply NoDup_app_remove_r in Hb. exact Hb.
Qed.

Lemma partOf_In (a b : list A) (x : A) : partOf a b -> In x a -> In x b.
Proof.
  intros [r H] Hx. apply (Permutation_in x H). apply in_or_app. left. exact Hx.
Qed.

Lemma partOf_length (a b : list A) : partOf a b -> (List.length a <= List.length b)%nat.
Proof.
  intros [r H]. rewrite <- (Permutation_length H), length_app. lia.
Qed.

End PartOf.

Lemma slice0_part {A : Type} (l : list A) (k : Z) : partOf (JS.slice0 l k) l.
Proof. unfold JS.slice0. destruct (k <? 0)%Z; apply partOf_firstn. Qed.

Lemma limit_part (n : Z) (docs : list IForm) : partOf (Mongo.limit n docs) docs.
Proof.
  unfold Mongo.limit. destruct (n =? 0)%Z; [apply partOf_refl|apply partOf_firstn].
Qed.

Lemma rank_part (pe : list float) (forms : list IForm) (k : Z) :
  partOf (rank pe forms k) forms.
Proof.
  rewrite rank_as_filter.
  eapply partOf_trans; [apply partOf_filter|].
  eapply partOf_trans; [apply slice0_part|].
  apply partOf_perm. symmetry. apply ranked_perm.
Qed.

Lemma candidates_part (owner : string) (w : World) :
  partOf (candidates owner w) (collection w).
Proof.
  unfold candidates. eapply partOf_trans; [apply limit_part|].
  apply partOf_filter.
Qed.

Lemma recent_part (owner : string) (k : Z) (docs : list IForm) :
  partOf (recent owner k docs) docs.
Proof.
  unfold recent. eapply partOf_trans; [apply limit_part|].
  eapply partOf_trans; [apply partOf_perm; symmetry; apply sortCreatedAtDesc_perm|].
  apply partOf_filter.
Qed.

(** Either path, told apart by the first query. *)
Lemma retrieve_cases (owner prompt : string) (k : Z) (w w' : World)
  (result : list IForm) :
  retrieveRelevantForms owner prompt k w = (Resolved result, w') ->
  (nextResolves w = true /\
   result = rank (generateEmbedding prompt) (candidates owner w) k) \/
  (nextResolves w = false /\ result = recent owner k (collection w)).
Proof.
  intros E. destruct (nextResolves w) eqn:Hr; [left|right]; split; auto.
  - pose proof (retrieve_primary owner prompt k w Hr) as Hp.
    rewrite E in Hp. cbn [fst] in Hp. injection Hp as ->. reflexivity.
  - rewrite (retrieve_fallback owner prompt k w Hr) in E.
    apply exec_value in E as [-> _].
    cbn [consoleError collection]. rewrite afterQuery_collection. reflexivity.
Qed.

(** X7: the records returned are stored records, none more often than it is
    stored: the result is part of the collection. *)
Theorem result_part_of_collection (owner prompt : string) (k : Z) (w w' : World)
  (result : list IForm) :
  retrieveRelevantForms owner prompt k w = (Resolved result, w') ->
  partOf result (collection w) /\
  (NoDup (collection w) -> NoDup result).
Proof.
  intros E.
  assert (partOf result (collection w)) as Hp.
  { destruct (retrieve_cases owner prompt k w _ _ E) as [[_ ->]|[_ ->]].
    - eapply partOf_trans; [apply rank_part|apply candidates_part].
    - apply recent_part. }
  split; [exact Hp|apply partOf_NoDup; exact Hp].
Qed.

Lemma result_part_of_collection_witness :
  fst (retrieveRelevantForms "u1" Sample.prompt 2 (Sample.world [true])) =
  Resolved [Sample.blank; Sample.job2] /\
  partOf [Sample.blank; Sample.job2] (collection (Sample.world [true])).
Proof.
  assert (retrieveRelevantForms "u1" Sample.prompt 2 (Sample.world [true]) =
          (Resolved [Sample.blank; Sample.job2],
           snd (retrieveRelevantForms "u1" Sample.prompt 2 (Sample.world [true]))))
    as E by (vm_compute; reflexivity).
  split; [vm_compute; reflexivity|].
  exact (proj1 (result_part_of_collection "u1" Sample.prompt 2
                  (Sample.world [true]) _ _ E)).
Defined.


(** X8: for [k >= 1] a call that resolves returns at most [k] records, on
    either path and whatever the scores are. *)
Theorem result_length_bound (owner prompt : string) (k : Z) (w w' : World)
  (result : list IForm) :
  (1 <= k)%Z ->
  retrieveRelevantForms owner prompt k w = (Resolved result, w') ->
  (Z.of_nat (List.length result) <= k)%Z.
Proof.
  intros Hk E. destruct (retrieve_cases owner prompt k w _ _ E) as [[_ ->]|[_ ->]].
  - rewrite rank_as_filter. unfold JS.slice0. destruct (Z.ltb_spec k 0); [lia|].
    pose proof (partOf_length _ _ (partOf_filter (relevant (generateEmbedding prompt))
                  (firstn (Z.to_nat k) (ranked (generateEmbedding prompt) (candidates owner w))))) as Hl.
    rewrite length_firstn in Hl. lia.
  - apply limit_length. lia.
Qed.

Lemma result_length_bound_witness :
  (1 <= 2)%Z /\
  fst (retrieveRelevantForms "u1" Sample.prompt 2 (Sample.world [])) =
  Resolved [Sample.job; Sample.job2] /\
  (Z.of_nat (List.length [Sample.job; Sample.job2]) <= 2)%Z.
Proof.
  assert (retrieveRelevantForms "u1" Sample.prompt 2 (Sample.world []) =
          (Resolved [Sample.job; Sample.job2],
           snd (retrieveRelevantForms "u1" Sample.prompt 2 (Sample.world []))))
    as E by (vm_compute; reflexivity).
  split; [lia|]. split; [vm_compute; reflexivity|].
  exact (result_length_bound "u1" Sample.prompt 2 (Sample.world []) _ _
           ltac:(lia) E).
Defined.


Lemma retrieve_fallback_world (owner prompt : string) (k : Z) (w : World) :
  nextResolves w = false ->
  console (snd (retrieveRelevantForms owner prompt k w)) =
  console w ++ [ERROR_LINE] /\
  scored (snd (retrieveRelevantForms owner prompt k w)) = scored w.
Proof.
  intros Hr. rewrite (retrieve_fallback owner prompt k w Hr).
  set (w2 := consoleError ERROR_LINE (afterQuery w)).
  assert (snd (Mongo.exec (recent owner k) w2) = afterQuery w2) as ->.
  { destruct (nextResolves w2) eqn:H2.
    - rewrite (exec_resolves _ w2 H2). reflexivity.
    - destruct (exec_rejects (recent owner k) w2 H2) as [r ->]. reflexivity. }
  rewrite afterQuery_console, afterQuery_scored. unfold w2.
  cbn [consoleError console scored].
  rewrite afterQuery_console, afterQuery_scored. auto.
Qed.

(** X10: the error line is written exactly when the candidate fetch fails,
    once, whatever [k] is and whether or not the query of the fallback
    resolves. *)
Theorem error_line_marks_fallback (owner prompt : string) (k : Z) (w : World) :
  fallbackFlag w (snd (retrieveRelevantForms owner prompt k w)) =
  negb (nextResolves w) /\
  console (snd (retrieveRelevantForms owner prompt k w)) =
  if nextResolves w then console w else console w ++ [ERROR_LINE].
Proof.
  unfold fallbackFlag. destruct (nextResolves w) eqn:Hr.
  - destruct (retrieve_primary_world owner prompt k w Hr) as [-> _].
    rewrite Nat.eqb_refl. auto.
  - destruct (retrieve_fallback_world owner prompt k w Hr) as [-> _].
    rewrite length_app. cbn [List.length negb]. split; [|reflexivity].
    apply negb_true_iff, Nat.eqb_neq. lia.
Qed.

Lemma filter_andb {A : Type} (p q : A -> bool) (l : list A) :
  filter (fun x => p x && q x) l = filter q (filter p l).
Proof.
  induction l as [|x l IH]; [reflexivity|]. cbn [filter].
  destruct (p x); cbn [andb filter]; [destruct (q x)|]; rewrite IH; reflexivity.
Qed.

(** X11: the records of other owners do not interfere: two stores that hold
    the same records of an owner, in the same order, and fail alike give that
    owner the same result. *)
Theorem other_owners_do_not_interfere (owner prompt : string) (k : Z)
  (w1 w2 : World) :
  filter (Mongo.ownedBy owner) (collection w1) =
  filter (Mongo.ownedBy owner) (collection w2) ->
  faults w1 = faults w2 ->
  fst (retrieveRelevantForms owner prompt k w1) =
  fst (retrieveRelevantForms owner prompt k w2).
Proof.
  intros Ec Ef.
  assert (candidates owner w1 = candidates owner w2) as Ecand.
  { unfold candidates, Mongo.find. rewrite !filter_andb, Ec. reflexivity. }
  assert (nextResolves w1 = nextResolves w2) as En
    by (unfold nextResolves; rewrite Ef; reflexivity).
  destruct (nextResolves w1) eqn:Hr1; symmetry in En.
  - rewrite (retrieve_primary owner prompt k w1 Hr1),
      (retrieve_primary owner prompt k w2 En), Ecand. reflexivity.
  - rewrite (retrieve_fallback owner prompt k w1 Hr1),
      (retrieve_fallback owner prompt k w2 En).
    unfold Mongo.exec. cbn [consoleError faults collection].
    rewrite !afterQuery_faults, !afterQuery_collection, Ef.
    assert (recent owner k (collection w1) = recent owner k (collection w2)) as ->
      by (unfold recent, Mongo.find; rewrite Ec; reflexivity).
    destruct (tl (faults w2)) as [|[|] later]; reflexivity.
Qed.

Lemma other_owners_do_not_interfere_witness :
  fst (retrieveRelevantForms "u1" Sample.prompt 5 (Sample.world [])) =
  fst (retrieveRelevantForms "u1" Sample.prompt 5
         {| collection := filter (Mongo.ownedBy "u1") Sample.docs;
            faults := []; console := []; scored := 0 |}).
Proof.
  apply other_owners_do_not_interfere; vm_compute; reflexivity.
Defined.


Lemma filter_perm {A : Type} (p : A -> bool) (l l' : list A) :
  Permutation l l' -> Permutation (filter p l) (filter p l').
Proof.
  induction 1 as [|x l l' _ IH|x y l|l l' l'' _ IH1 _ IH2]; cbn [filter].
  - constructor.
  - destruct (p x); [constructor|]; exact IH.
  - destruct (p x), (p y); try reflexivity. apply perm_swap.
  - rewrite IH1. exact IH2.
Qed.

(** X12: asking for more keeps what was found: the result for [k] is the
    beginning of the result for any larger [k']. *)
Theorem larger_k_extends (owner prompt : string) (k k' : Z) (w : World) :
  (0 <= k <= k')%Z ->
  nextResolves w = true ->
  scoresAreNumbers (generateEmbedding prompt) (candidates owner w) ->
  exists result',
    fst (retrieveRelevantForms owner prompt k' w) = Resolved result' /\
    fst (retrieveRelevantForms owner prompt k w) =
    Resolved (firstn (Z.to_nat k) result').
Proof.
  intros Hk Hr Hn. rewrite !(retrieve_primary owner prompt _ w Hr).
  eexists. split; [reflexivity|].
  rewrite !rank_top by (lia || exact Hn).
  rewrite firstn_firstn. do 2 f_equal. lia.
Qed.

Lemma larger_k_extends_witness :
  exists result',
    fst (retrieveRelevantForms "u1" Sample.prompt 3 (Sample.world [])) =
    Resolved result' /\
    fst (retrieveRelevantForms "u1" Sample.prompt 1 (Sample.world [])) =
    Resolved (firstn (Z.to_nat 1) result').
Proof.
  apply (larger_k_extends "u1" Sample.prompt 1 3 (Sample.world [])).
  - lia.
  - reflexivity.
  - unfold scoresAreNumbers, isNumber. vm_compute. repeat constructor.
Defined.


(** X13: with [k] at least the number of candidates nothing is cut: the result
    holds exactly the candidates of similarity above 0.1. *)
Theorem large_k_returns_all_relevant (owner prompt : string) (k : Z) (w : World) :
  nextResolves w = true ->
  (Z.of_nat (List.length (candidates owner w)) <= k)%Z ->
  exists result,
    fst (retrieveRelevantForms owner prompt k w) = Resolved result /\
    Permutation result
      (filter (relevant (generateEmbedding prompt)) (candidates owner w)) /\
    (forall f, In f result <->
               In f (candidates owner w) /\
               relevant (generateEmbedding prompt) f = true).
Proof.
  intros Hr Hk. set (pe := generateEmbedding prompt).
  exists (rank pe (candidates owner w) k).
  split; [apply retrieve_primary; exact Hr|].
  assert (rank pe (candidates owner w) k =
          filter (relevant pe) (ranked pe (candidates owner w))) as E.
  { rewrite rank_as_filter. f_equal. unfold JS.slice0.
    destruct (Z.ltb_spec k 0); [lia|]. apply firstn_all2.
    rewrite <- (Permutation_length (ranked_perm pe (candidates owner w))). lia. }
  assert (Permutation (rank pe (candidates owner w) k)
            (filter (relevant pe) (candidates owner w))) as P.
  { rewrite E. apply filter_perm. symmetry. apply ranked_perm. }
  split; [exact P|].
  intros f. rewrite <- filter_In. split; apply Permutation_in;
    [exact P|symmetry; exact P].
Qed.

Lemma large_k_returns_all_relevant_witness :
  exists result,
    fst (retrieveRelevantForms "u1" Sample.prompt 10 (Sample.world [])) =
    Resolved result /\
    Permutation result
      (filter (relevant (generateEmbedding Sample.prompt))
         (candidates "u1" (Sample.world []))) /\
    (forall f, In f result <->
               In f (candidates "u1" (Sample.world [])) /\
               relevant (generateEmbedding Sample.prompt) f = true).
Proof.
  apply (large_k_returns_all_relevant "u1" Sample.prompt 10 (Sample.world [])).
  - reflexivity.
  - vm_compute. discriminate.
Defined.


(** ** Summaries, purposes and the embedded text *)

Section FormTextFacts.
Local Open Scope string_scope.

Section Summaries.

Lemma prefix_refl (s : string) : String.prefix s s = true.
Proof.
  induction s as [|c s IH]; cbn [String.prefix]; [reflexivity|].
  destruct (ascii_dec c c); [exact IH|congruence].
Qed.

Lemma prefix_app (n a b : string) :
  String.prefix n a = true -> String.prefix n (a ++ b) = true.
Proof.
  revert a. induction n as [|c n IH]; intros a;
    [intros _; destruct (a ++ b)%string; reflexivity|].
  destruct a as [|x a]; cbn [String.prefix append]; [discriminate|].
  destruct (ascii_dec c x); [apply IH|discriminate].
Qed.

Lemma includes_refl (s : string) : includes s s = true.
Proof. destruct s; cbn [includes]; rewrite prefix_refl; reflexivity. Qed.

Lemma includes_app_l (a b n : string) :
  includes a n = true -> includes (a ++ b) n = true.
Proof.
  induction a as [|x a IH]; cbn [includes append]; intros E.
  - rewrite orb_false_r in E. destruct n; [|discriminate E].
    destruct b; reflexivity.
  - apply orb_prop in E as [E|E].
    + change (String x (a ++ b)) with (String x a ++ b).
      rewrite (prefix_app _ _ b E). reflexivity.
    + rewrite (IH E). apply orb_true_r.
Qed.

Lemma includes_app_r (a b n : string) :
  includes b n = true -> includes (a ++ b) n = true.
Proof.
  intros E. induction a as [|x a IH]; cbn [includes append]; [exact E|].
  rewrite IH. apply orb_true_r.
Qed.

Lemma includes_join (separator x : string) (items : list string) :
  In x items -> includes (join separator items) x = true.
Proof.
  induction items as [|y items IH]; [intros []|].
  intros [->|Hin].
  - destruct items; cbn [join]; [apply includes_refl|].
    apply includes_app_l, includes_refl.
  - destruct items as [|z items]; [destruct Hin|].
    change (join separator (y :: z :: items))
      with (y ++ separator ++ join separator (z :: items)).
    apply includes_app_r, includes_app_r, IH. exact Hin.
Qed.

End Summaries.

(** X14: the summary of a form names every field, by its label or, when the
    label is empty, by its name, and it names the type of every field. *)
Theorem summary_names_every_field (form : Draft.t) (f : Field.t) :
  In f (Draft.schema form) ->
  includes (extractFormSummary form) (orElse (Field.label f) (Field.name f)) = true /\
  includes (extractFormSummary form) (Field.type f) = true.
Proof.
  intros Hin. unfold extractFormSummary. split.
  - do 4 apply includes_app_r. apply includes_app_l. apply includes_join.
    apply (in_map (fun f => orElse (Field.label f) (Field.name f))). exact Hin.
  - do 6 apply includes_app_r. apply includes_join.
    apply (in_map Field.type). exact Hin.
Qed.

Lemma summary_names_every_field_witness :
  extractFormSummary SampleDraft.form = "Form:  Fields: contactEmail Types: email" /\
  includes (extractFormSummary SampleDraft.form) "contactEmail" = true /\
  includes (extractFormSummary SampleDraft.form) "email" = true.
Proof.
  split; [reflexivity|].
  exact (summary_names_every_field SampleDraft.form SampleDraft.email
           (or_introl eq_refl)).
Defined.

Section Purposes.

Lemma firstIncluded_some (lowerPrompt q : string) (keywords : list string) :
  firstIncluded lowerPrompt keywords = Some q ->
  exists before after,
    keywords = (before ++ q :: after)%list /\
    includes lowerPrompt q = true /\
    Forall (fun x => includes lowerPrompt x = false) before.
Proof.
  induction keywords as [|x keywords IH]; cbn [firstIncluded]; [discriminate|].
  destruct (includes lowerPrompt x) eqn:E.
  - intros [= <-]. exists [], keywords. auto.
  - intros H. destruct (IH H) as (before & after & -> & Hq & Hb).
    exists (x :: before), after. auto.
Qed.

Lemma firstIncluded_first (lowerPrompt q : string) (before after : list string) :
  includes lowerPrompt q = true ->
  Forall (fun x => includes lowerPrompt x = false) before ->
  firstIncluded lowerPrompt (before ++ q :: after)%list = Some q.
Proof.
  intros Hq Hb. induction Hb as [|x before Hx Hb IH]; cbn [app firstIncluded].
  - rewrite Hq. reflexivity.
  - rewrite Hx. exact IH.
Qed.

Lemma firstIncluded_none (lowerPrompt : string) (keywords : list string) :
  firstIncluded lowerPrompt keywords = None ->
  Forall (fun x => includes lowerPrompt x = false) keywords.
Proof.
  induction keywords as [|x keywords IH]; cbn [firstIncluded]; [constructor|].
  destruct (includes lowerPrompt x) eqn:E; [discriminate|]. auto.
Qed.

End Purposes.

(** X15: the purpose of a form is the first keyword of the list that occurs in
    the prompt, read in lower case and as a substring; the keywords that come
    later in the list and the fields do not matter then. *)
Theorem purpose_is_first_keyword (prompt q : string) (fields : list Field.t)
  (before after : list string) :
  purposes = (before ++ q :: after)%list ->
  includes (JS.toLowerCase prompt) q = true ->
  Forall (fun x => includes (JS.toLowerCase prompt) x = false) before ->
  extractPurpose prompt fields = q.
Proof.
  intros Ep Hq Hb. unfold extractPurpose.
  rewrite Ep, (firstIncluded_first _ _ _ after Hq Hb). reflexivity.
Qed.

Lemma purpose_is_first_keyword_witness :
  includes (JS.toLowerCase "Job Application") "job" = true /\
  extractPurpose "Job Application" [] = "application".
Proof.
  split; [reflexivity|].
  apply (purpose_is_first_keyword "Job Application" "application" []
           ["signup"; "registration"]
           ["survey"; "contact"; "job"; "hiring"; "internship"; "resume";
            "career"; "medical"; "patient"; "health"; "appointment";
            "admission"; "college"; "university"; "education"; "feedback";
            "review"; "testimonial"]).
  - reflexivity.
  - reflexivity.
  - repeat constructor.
Defined.

(** X16: the purpose is one of the 21 keywords or "general"; it is "general" or
    "job" when no keyword occurs in the prompt, "job" exactly when the first
    field is a file field whose label mentions a resume or a cv; and the case
    of the letters of the prompt does not matter. *)
Theorem purpose_vocabulary (prompt : string) (fields : list Field.t) :
  (In (extractPurpose prompt fields) purposes \/
   extractPurpose prompt fields = "general") /\
  (Forall (fun x => includes (JS.toLowerCase prompt) x = false) purposes ->
   extractPurpose prompt fields =
   match fields with
   | firstField :: _ =>
       if String.eqb (Field.type firstField) "file" &&
          (includes (JS.toLowerCase (Field.label firstField)) "resume" ||
           includes (JS.toLowerCase (Field.label firstField)) "cv")
       then "job" else "general"
   | [] => "general"
   end) /\
  (forall prompt' : string,
      JS.toLowerCase prompt = JS.toLowerCase prompt' ->
      extractPurpose prompt fields = extractPurpose prompt' fields).
Proof.
  split; [|split].
  - unfold extractPurpose.
    destruct (firstIncluded (JS.toLowerCase prompt) purposes) as [q|] eqn:E.
    + left. destruct (firstIncluded_some _ _ _ E) as (b & a & -> & _).
      apply in_or_app. right. left. reflexivity.
    + destruct fields as [|f fields]; [right; reflexivity|].
      destruct (_ && _); [left|right; reflexivity].
      unfold purposes. cbn. tauto.
  - intros Hn. unfold extractPurpose.
    destruct (firstIncluded (JS.toLowerCase prompt) purposes) as [q|] eqn:E;
      [|reflexivity].
    destruct (firstIncluded_some _ _ _ E) as (b & a & Ep & Hq & _).
    rewrite Forall_forall in Hn. rewrite Hn in Hq; [discriminate|].
    rewrite Ep. apply in_or_app. right. left. reflexivity.
  - intros prompt' El. unfold extractPurpose. rewrite El. reflexivity.
Qed.

Section EmbeddedText.

Lemma endsInWord_lower (s : string) :
  endsInWord (JS.toLowerCase s) = endsInWord s.
Proof.
  induction s as [|c s IH]; [reflexivity|].
  cbn [JS.toLowerCase]. destruct s as [|c' s].
  - cbn [JS.toLowerCase endsInWord]. rewrite isWhiteSpace_lowerChar. reflexivity.
  - cbn [JS.toLowerCase endsInWord] in *. exact IH.
Qed.

(** After a text that ends in a word, a separator starts the tokens anew. *)
Lemma splitFrom_after_word (a b cur : string) (prev_ws : bool) (c : ascii) :
  endsInWord a = true -> JS.isWhiteSpace c = true ->
  JS.splitFrom cur prev_ws (a ++ String c b) =
  (JS.splitFrom cur prev_ws a ++ JS.splitFrom "" true b)%list.
Proof.
  intros Ha Hc. revert cur prev_ws Ha.
  induction a as [|x a IH]; intros cur prev_ws Ha; [discriminate Ha|].
  destruct a as [|y a].
  - cbn [endsInWord] in Ha. apply negb_true_iff in Ha.
    cbn [append JS.splitFrom]. rewrite Ha, Hc. reflexivity.
  - assert (endsInWord (String y a) = true) as Ha' by exact Ha.
    change (String x (String y a) ++ String c b)
      with (String x (String y a ++ String c b)).
    cbn [JS.splitFrom].
    destruct (JS.isWhiteSpace x); [destruct prev_ws|]; rewrite (IH _ _ Ha');
      reflexivity.
Qed.

(** A text without leading white space splits the same way after a
    separator as at the start of a text. *)
Lemma splitFrom_no_leading (s : string) :
  noLeadingWhiteSpace s = true -> JS.splitFrom "" true s = JS.splitWhitespace s.
Proof.
  unfold JS.splitWhitespace. destruct s as [|c s]; [reflexivity|].
  cbn [noLeadingWhiteSpace JS.splitFrom]. intros Hc.
  apply negb_true_iff in Hc. rewrite Hc. reflexivity.
Qed.

Lemma noLeadingWhiteSpace_lower (s : string) :
  noLeadingWhiteSpace (JS.toLowerCase s) = noLeadingWhiteSpace s.
Proof.
  destruct s as [|c s]; [reflexivity|].
  cbn [JS.toLowerCase noLeadingWhiteSpace]. rewrite isWhiteSpace_lowerChar.
  reflexivity.
Qed.

(** The summary of a form begins with the title, or with [Form]. *)
Lemma summary_no_leading (form : Draft.t) :
  noLeadingWhiteSpace (Draft.title form) = true ->
  noLeadingWhiteSpace (extractFormSummary form) = true.
Proof.
  unfold extractFormSummary, orElse.
  destruct (Draft.title form) as [|c title]; [reflexivity|].
  cbn [String.eqb append noLeadingWhiteSpace]. auto.
Qed.

End EmbeddedText.

(** X17: a prompt that ends in a word keeps its tokens in the text that is
    embedded for the new form: the first tokens of [`${prompt} ${summary}`]
    are those of the prompt, at the same positions.  When the summary does not
    begin with white space, the tokens of the text are those of the prompt
    followed by those of the summary; the summary of a form is such a text
    when the title of the form does not begin with white space. *)
Theorem prompt_tokens_come_first (prompt summary : string) :
  endsInWord prompt = true ->
  firstn (List.length (JS.splitWhitespace (JS.toLowerCase prompt)))
    (JS.splitWhitespace (JS.toLowerCase (embeddingText prompt summary))) =
  JS.splitWhitespace (JS.toLowerCase prompt) /\
  (noLeadingWhiteSpace summary = true ->
   JS.splitWhitespace (JS.toLowerCase (embeddingText prompt summary)) =
   (JS.splitWhitespace (JS.toLowerCase prompt) ++
    JS.splitWhitespace (JS.toLowerCase summary))%list) /\
  (forall form : Draft.t,
      noLeadingWhiteSpace (Draft.title form) = true ->
      JS.splitWhitespace
        (JS.toLowerCase (embeddingText prompt (extractFormSummary form))) =
      (JS.splitWhitespace (JS.toLowerCase prompt) ++
       JS.splitWhitespace (JS.toLowerCase (extractFormSummary form)))%list).
Proof.
  intros E.
  assert (forall summary' : string,
             JS.splitWhitespace (JS.toLowerCase (embeddingText prompt summary')) =
             (JS.splitWhitespace (JS.toLowerCase prompt) ++
              JS.splitFrom "" true (JS.toLowerCase summary'))%list) as Es.
  { intros summary'. unfold embeddingText, JS.splitWhitespace.
    rewrite toLowerCase_app. cbn [append JS.toLowerCase].
    apply splitFrom_after_word; [rewrite endsInWord_lower; exact E|reflexivity]. }
  assert (forall summary' : string,
             noLeadingWhiteSpace summary' = true ->
             JS.splitWhitespace (JS.toLowerCase (embeddingText prompt summary')) =
             (JS.splitWhitespace (JS.toLowerCase prompt) ++
              JS.splitWhitespace (JS.toLowerCase summary'))%list) as En.
  { intros summary' Hs. rewrite Es, splitFrom_no_leading; [reflexivity|].
    rewrite noLeadingWhiteSpace_lower. exact Hs. }
  split; [|split].
  - rewrite Es, firstn_app, Nat.sub_diag, firstn_all. cbn [firstn].
    apply app_nil_r.
  - apply En.
  - intros form Ht. apply En, summary_no_leading. exact Ht.
Qed.

Lemma prompt_tokens_come_first_witness :
  endsInWord "Job form" = true /\
  noLeadingWhiteSpace "Hiring: x" = true /\
  JS.splitWhitespace (JS.toLowerCase "Job form") = ["job"; "form"] /\
  JS.splitWhitespace (JS.toLowerCase "Hiring: x") = ["hiring:"; "x"] /\
  JS.splitWhitespace (JS.toLowerCase (embeddingText "Job form" "Hiring: x")) =
  ["job"; "form"; "hiring:"; "x"].
Proof.
  split; [reflexivity|]. split; [reflexivity|].
  split; [reflexivity|]. split; [reflexivity|].
  exact (proj1 (proj2 (prompt_tokens_come_first "Job form" "Hiring: x" eq_refl))
           eq_refl).
Defined.

End FormTextFacts.
